(** * lws-minimal-mqtt-client: the session state machine of [callback_mqtt]

    A shallow embedding of
    [minimal-examples/mqtt-client/minimal-mqtt-client/minimal-mqtt-client.c]:
    the per-session data [struct pss], the two run-level flags
    [interrupted] and [bad], the protocol callback [callback_mqtt] and the
    event loop of [main].

    The library behind the callback (connection, TLS, MQTT framing, timers)
    is the environment: every callback invocation is an input, together
    with the value the send primitive returns if the callback invokes one.
    One call of [lws_service] may invoke the callback any number of
    times.  Calls into the library are recorded as a list of actions.
    Logging ([lwsl_user], [lwsl_err], [lwsl_notice],
    [lwsl_hexdump_notice]) has no effect on the session and is left
    out. *)

From Stdlib Require Import ZArith List Lia Bool String.
Import ListNotations.
Open Scope Z_scope.

(** ** Machine integers

    [int] is 32 bits wide, [size_t] 64 bits (LP64).  An [int] is a [Z] in
    [[int_min, int_max]]; [++] and [--] on an [int] are followed by
    [wrap_int], which is the identity whenever C defines the result.  A
    [size_t] is a [Z] in [[0, 2^64)] and its arithmetic is reduced by
    [wrap_size]. *)

Definition int_min : Z := - 2 ^ 31.
Definition int_max : Z := 2 ^ 31 - 1.
Definition size_modulus : Z := 2 ^ 64.

Definition wrap_int (z : Z) : Z := (z + 2 ^ 31) mod 2 ^ 32 - 2 ^ 31.
Definition wrap_size (z : Z) : Z := z mod size_modulus.

(** ** The anonymous [enum] of session states *)

Definition STATE_SUBSCRIBE    : Z := 0.
Definition STATE_PUBLISH_QOS0 : Z := 1.
Definition STATE_WAIT_ACK0    : Z := 2.
Definition STATE_PUBLISH_QOS1 : Z := 3.
Definition STATE_WAIT_ACK1    : Z := 4.
Definition STATE_TEST_FINISH  : Z := 5.

(** ** Static data *)

Inductive lws_mqtt_qos_levels_t := QOS0 | QOS1.

Record lws_mqtt_topic_elem_t := mk_topic {
  name : string;
  topic_qos : lws_mqtt_qos_levels_t
}.

Record lws_mqtt_subscribe_param_t := mk_sub_param {
  topic : list lws_mqtt_topic_elem_t;
  num_topics : Z
}.

Definition topics : list lws_mqtt_topic_elem_t :=
  [ mk_topic "test/topic0" QOS0; mk_topic "test/topic1" QOS1 ].

Definition sub_param : lws_mqtt_subscribe_param_t :=
  mk_sub_param topics (Z.of_nat (List.length topics)).

(** The fields of [pub_param] that the callback assigns before each
    publish. *)
Record lws_mqtt_publish_param_t := mk_pub_param {
  pub_topic : string;
  topic_len : Z;
  qos : lws_mqtt_qos_levels_t;
  payload_len : Z
}.

Definition test_string : string :=
  "No one would have believed in the last years of the nineteenth " ++
  "century that this world was being watched keenly and closely by " ++
  "intelligences greater than man's and yet as mortal as his own; that as " ++
  "men busied themselves about their various concerns they were " ++
  "scrutinised and studied, perhaps almost as narrowly as a man with a " ++
  "microscope might scrutinise the transient creatures that swarm and " ++
  "multiply in a drop of water.  With infinite complacency men went to " ++
  "and fro over this globe about their little affairs, serene in their " ++
  "assurance of their empire over matter. It is possible that the " ++
  "infusoria under the microscope do the same.  No one gave a thought to " ++
  "the older worlds of space as sources of human danger, or thought of " ++
  "them only to dismiss the idea of life upon them as impossible or " ++
  "improbable.  It is curious to recall some of the mental habits of " ++
  "those departed days.  At most terrestrial men fancied there might be " ++
  "other men upon Mars, perhaps inferior to themselves and ready to " ++
  "welcome a missionary enterprise. Yet across the gulf of space, minds " ++
  "that are to our minds as ours are to those of the beasts that perish, " ++
  "intellects vast and cool and unsympathetic, regarded this earth with " ++
  "envious eyes, and slowly and surely drew their plans against us.  And " ++
  "early in the twentieth century came the great disillusionment. ".

(** [#define TEST_STRING_LEN 1337] *)
Definition TEST_STRING_LEN : Z := 1337.

(** The literal in [chunk = 300]. *)
Definition MAX_CHUNK : Z := 300.

(** ** Session and run-level state *)

Record pss := mk_pss {
  state : Z;      (* int *)
  pos : Z;        (* size_t *)
  retries : Z     (* int *)
}.

(** [static int interrupted, bad = 1]; [do_ssl] is read by
    [connect_client] only and is not part of the session logic. *)
Record globals := mk_globals {
  interrupted : Z;
  bad : Z
}.

(** The library allocates the per-session data zeroed
    ([per_session_data_size = sizeof(struct pss)]). *)
Definition pss_init : pss := mk_pss 0 0 0.
Definition globals_init : globals := mk_globals 0 1.

(** ** Callback inputs and outputs *)

Inductive lws_callback_reasons :=
| LWS_CALLBACK_CLIENT_CONNECTION_ERROR
| LWS_CALLBACK_MQTT_CLIENT_CLOSED
| LWS_CALLBACK_MQTT_CLIENT_ESTABLISHED
| LWS_CALLBACK_MQTT_SUBSCRIBED
| LWS_CALLBACK_MQTT_CLIENT_WRITEABLE
| LWS_CALLBACK_MQTT_ACK
| LWS_CALLBACK_MQTT_RESEND
| LWS_CALLBACK_MQTT_CLIENT_RX
| LWS_CALLBACK_OTHER.            (* every reason that reaches [default:] *)

(** One invocation of the callback by the library: the reason, whether
    the [in] pointer is NULL, and what [lws_mqtt_client_send_subcribe] or
    [lws_mqtt_client_send_publish] returns should the callback invoke it. *)
Record call := mk_call {
  reason : lws_callback_reasons;
  in_null : bool;
  send_rc : Z
}.

(** Calls from the callback into the library, in program order.  A
    publish records the offset of [test_string + pss->pos], the chunk
    length and the [is_final] argument. *)
Inductive action :=
| lws_callback_on_writable
| lws_mqtt_client_send_subcribe (sub : lws_mqtt_subscribe_param_t)
| lws_mqtt_client_send_publish (pub : lws_mqtt_publish_param_t)
                               (buf_off len : Z) (is_final : bool)
| lws_get_context
| lws_cancel_service.

(** The callback either returns ([ret], updated session, updated flags,
    actions issued) or stops the process at the failed [assert(pub)]. *)
Inductive outcome :=
| Aborted
| Returned (ret : Z) (p : pss) (g : globals) (acts : list action).

(** ** [callback_mqtt]

    The payload length and the chunk ceiling are the only two constants
    of the chunking code; the handler is written once over both and
    [callback_mqtt] below instantiates them with [TEST_STRING_LEN] and
    300, as the source has them. *)

Section Handler.

Variable payload_length : Z.   (* TEST_STRING_LEN *)
Variable max_chunk : Z.        (* the initial value of [chunk] *)

(** [chunk = max_chunk; if (chunk > LEN - pss->pos) chunk = LEN - pss->pos;]
    in [size_t] arithmetic. *)
Definition next_chunk (cursor : Z) : Z :=
  let chunk := wrap_size max_chunk in
  if wrap_size (wrap_size payload_length - cursor) <? chunk
  then wrap_size (wrap_size payload_length - cursor)
  else chunk.

(** [(pss->pos + chunk == LEN)] *)
Definition is_final_chunk (cursor chunk : Z) : bool :=
  wrap_size (cursor + chunk) =? wrap_size payload_length.

Definition writeable (c : call) (p : pss) (g : globals) : outcome :=
  if state p =? STATE_SUBSCRIBE then
    let act := lws_mqtt_client_send_subcribe sub_param in
    if send_rc c =? 0
    then Returned 0 (mk_pss (wrap_int (state p + 1)) (pos p) (retries p))
                  g [act]
    else Returned (-1) p g [act]
  else if (state p =? STATE_PUBLISH_QOS0) || (state p =? STATE_PUBLISH_QOS1)
  then
    let pub := mk_pub_param "test/topic"
                 (Z.of_nat (String.length "test/topic"))
                 (if state p =? STATE_PUBLISH_QOS0 then QOS0 else QOS1)
                 payload_length in
    let chunk := next_chunk (pos p) in
    let act := lws_mqtt_client_send_publish pub (pos p) chunk
                 (is_final_chunk (pos p) chunk) in
    if send_rc c =? 0 then
      let pos' := wrap_size (pos p + chunk) in
      if pos' =? wrap_size payload_length
      then Returned 0 (mk_pss (wrap_int (state p + 1)) 0 (retries p)) g [act]
      else Returned 0 (mk_pss (state p) pos' (retries p)) g [act]
    else Returned (-1) p g [act]
  else Returned 0 p g [].

Definition callback_mqtt_with (c : call) (p : pss) (g : globals) : outcome :=
  match reason c with
  | LWS_CALLBACK_CLIENT_CONNECTION_ERROR =>
      Returned 0 p (mk_globals 1 (bad g)) []
  | LWS_CALLBACK_MQTT_CLIENT_CLOSED =>
      Returned 0 p (mk_globals 1 (bad g)) []
  | LWS_CALLBACK_MQTT_CLIENT_ESTABLISHED =>
      Returned 0 p g [lws_callback_on_writable]
  | LWS_CALLBACK_MQTT_SUBSCRIBED =>
      Returned 0 p g []
  | LWS_CALLBACK_MQTT_CLIENT_WRITEABLE =>
      writeable c p g
  | LWS_CALLBACK_MQTT_ACK =>
      let p' := mk_pss (wrap_int (state p + 1)) (pos p) (retries p) in
      if negb (state p' =? STATE_TEST_FINISH)
      then Returned 0 p' g []
      else Returned 0 p' (mk_globals 1 0)
                    [lws_get_context; lws_cancel_service]
  | LWS_CALLBACK_MQTT_RESEND =>
      let r := wrap_int (retries p + 1) in
      if r =? 3
      then Returned 0 (mk_pss (state p) (pos p) r)
                    (mk_globals 1 (bad g)) []
      else Returned 0 (mk_pss (wrap_int (state p - 1)) 0 r) g []
  | LWS_CALLBACK_MQTT_CLIENT_RX =>
      if in_null c then Aborted else Returned 0 p g []
  | LWS_CALLBACK_OTHER =>
      Returned 0 p g []
  end.

(** A publish leg: WRITEABLE callbacks whose send is accepted, delivered
    until the handler leaves the state it started in.  [None] when the
    fuel runs out first. *)
Fixpoint publish_leg (fuel : nat) (p : pss) (g : globals)
  : option (list action * pss) :=
  match fuel with
  | O => None
  | S k =>
      match callback_mqtt_with
              (mk_call LWS_CALLBACK_MQTT_CLIENT_WRITEABLE true 0) p g with
      | Aborted => None
      | Returned _ p' g' acts =>
          if state p' =? state p
          then match publish_leg k p' g' with
               | Some (more, q) => Some (acts ++ more, q)
               | None => None
               end
          else Some (acts, p')
      end
  end.

End Handler.

Definition callback_mqtt : call -> pss -> globals -> outcome :=
  callback_mqtt_with TEST_STRING_LEN MAX_CHUNK.

(** ** The event loop of [main]

    [while (n >= 0 && !interrupted) n = lws_service(context, 0);]

    One call of [lws_service] dispatches a batch of callbacks, one after
    the other, and [interrupted] is tested only between two calls.  A
    failed assertion ends everything. *)

Record step := mk_step {
  st_call : call;
  st_pss : pss;           (* session before the callback *)
  st_globals : globals;   (* flags before the callback *)
  st_out : outcome
}.

(** The callbacks of one batch, with no test in between. *)
Fixpoint dispatch (cs : list call) (p : pss) (g : globals) : list step :=
  match cs with
  | [] => []
  | c :: rest =>
      match callback_mqtt c p g with
      | Aborted => [mk_step c p g Aborted]
      | Returned r p' g' acts =>
          mk_step c p g (Returned r p' g' acts) :: dispatch rest p' g'
      end
  end.

(** Whether the batch went through without a failed assertion, and the
    session and flags after it (at the failed assertion, if not). *)
Fixpoint dispatch_final (cs : list call) (p : pss) (g : globals)
  : bool * (pss * globals) :=
  match cs with
  | [] => (true, (p, g))
  | c :: rest =>
      match callback_mqtt c p g with
      | Aborted => (false, (p, g))
      | Returned _ p' g' _ => dispatch_final rest p' g'
      end
  end.

(** The run over the batches of successive [lws_service] calls: the list
    of steps taken.  It ends when the batches are used up, when
    [interrupted] is found set between two calls, or at a failed
    assertion. *)
Fixpoint run (bs : list (list call)) (p : pss) (g : globals) : list step :=
  match bs with
  | [] => []
  | b :: rest =>
      if interrupted g =? 0 then
        dispatch b p g ++
        (let '(ok, (p', g')) := dispatch_final b p g in
         if ok then run rest p' g' else [])
      else []
  end.

(** Session and flags when the loop is left. *)
Fixpoint run_final (bs : list (list call)) (p : pss) (g : globals)
  : pss * globals :=
  match bs with
  | [] => (p, g)
  | b :: rest =>
      if interrupted g =? 0 then
        let '(ok, (p', g')) := dispatch_final b p g in
        if ok then run_final rest p' g' else (p', g')
      else (p, g)
  end.

(** The schedule in which every [lws_service] call dispatches exactly
    one callback. *)
Definition one_per_call (cs : list call) : list (list call) :=
  map (fun c => [c]) cs.

(** Everything the run asked of the library. *)
Definition actions_of (tr : list step) : list action :=
  flat_map (fun s => match st_out s with
                     | Aborted => []
                     | Returned _ _ _ acts => acts
                     end) tr.

(** ** Observations on what a run sent *)

(** The publishes among a list of actions, as (offset, length, final). *)
Definition chunk : Type := Z * Z * bool.

Definition chunk_off (c : chunk) : Z := fst (fst c).
Definition chunk_len (c : chunk) : Z := snd (fst c).
Definition chunk_final (c : chunk) : bool := snd c.
Definition chunk_end (c : chunk) : Z := chunk_off c + chunk_len c.

Definition publish_chunks (acts : list action) : list chunk :=
  flat_map (fun a => match a with
                     | lws_mqtt_client_send_publish _ off len fin =>
                         [(off, len, fin)]
                     | _ => []
                     end) acts.

Definition total_len (cs : list chunk) : Z :=
  fold_right Z.add 0 (map chunk_len cs).

Definition final_count (cs : list chunk) : nat :=
  List.length (filter chunk_final cs).

(** The payload bytes a chunk carries. *)
Definition chunk_bytes (c : chunk) : string :=
  substring (Z.to_nat (chunk_off c)) (Z.to_nat (chunk_len c)) test_string.

Definition is_send (a : action) : bool :=
  match a with
  | lws_mqtt_client_send_subcribe _ => true
  | lws_mqtt_client_send_publish _ _ _ _ => true
  | _ => false
  end.

(** [pub_param] as the callback fills it in state [s] for a payload of
    [len] bytes. *)
Definition pub_of (len s : Z) : lws_mqtt_publish_param_t :=
  mk_pub_param "test/topic" 10
    (if s =? STATE_PUBLISH_QOS0 then QOS0 else QOS1) len.

(** Each chunk starts where the one before it ended. *)
Fixpoint contiguous (from : Z) (cs : list chunk) : Prop :=
  match cs with
  | [] => True
  | c :: rest => chunk_off c = from /\ contiguous (chunk_end c) rest
  end.

(** The publish call that carries chunk [c] in state [s]. *)
Definition publish_action (len s : Z) (c : chunk) : action :=
  lws_mqtt_client_send_publish (pub_of len s)
    (chunk_off c) (chunk_len c) (chunk_final c).

(** Shorthands for the calls used in scenarios. *)
Definition writable_ok : call :=
  mk_call LWS_CALLBACK_MQTT_CLIENT_WRITEABLE true 0.
Definition writable_fail (rc : Z) : call :=
  mk_call LWS_CALLBACK_MQTT_CLIENT_WRITEABLE true rc.
Definition ack : call := mk_call LWS_CALLBACK_MQTT_ACK true 0.
Definition resend : call := mk_call LWS_CALLBACK_MQTT_RESEND true 0.
Definition closed : call := mk_call LWS_CALLBACK_MQTT_CLIENT_CLOSED true 0.
Definition connection_error : call :=
  mk_call LWS_CALLBACK_CLIENT_CONNECTION_ERROR false 0.

(** The calls of the end-to-end scenarios.  A publish leg of the test
    payload takes five accepted WRITEABLE callbacks. *)
Definition publish_burst : list call := repeat writable_ok 5.

(** Subscribe, QoS0 leg, its ack, QoS1 leg, its ack. *)
Definition scenario_B : list call :=
  [writable_ok] ++ publish_burst ++ [ack] ++ publish_burst ++ [ack].

(** As scenario B up to the QoS1 leg, which is then answered by a resend
    request three times over, the leg being republished in between. *)
Definition scenario_C : list call :=
  [writable_ok] ++ publish_burst ++ [ack] ++ publish_burst ++
  [resend] ++ publish_burst ++ [resend] ++ publish_burst ++ [resend].

(** Scenario C up to, and without, the third resend request. *)
Definition before_third_resend : list call :=
  [writable_ok] ++ publish_burst ++ [ack] ++ publish_burst ++
  [resend] ++ publish_burst ++ [resend] ++ publish_burst.

Definition is_resend (c : call) : bool :=
  match reason c with
  | LWS_CALLBACK_MQTT_RESEND => true
  | _ => false
  end.

(** The steps of a run taken on a resend request. *)
Definition resend_steps (tr : list step) : list step :=
  filter (fun s => is_resend (st_call s)) tr.

(** Session and flags after a step; a step that stopped at the assertion
    changed nothing. *)
Definition st_after (s : step) : pss :=
  match st_out s with
  | Aborted => st_pss s
  | Returned _ p _ _ => p
  end.

Definition st_globals_after (s : step) : globals :=
  match st_out s with
  | Aborted => st_globals s
  | Returned _ _ g _ => g
  end.

Definition st_ret (s : step) : Z :=
  match st_out s with
  | Aborted => 0
  | Returned r _ _ _ => r
  end.

Definition is_ack (c : call) : bool :=
  match reason c with
  | LWS_CALLBACK_MQTT_ACK => true
  | _ => false
  end.

(** A step that moved the state to a smaller value. *)
Definition rewinds (s : step) : bool :=
  state (st_after s) <? state (st_pss s).

(** The transitions the specification's table allows: forward (or
    staying), or the edge from [STATE_WAIT_ACK1] back to
    [STATE_PUBLISH_QOS1] on a resend request. *)
Definition forward_or_ack1_resend (s : step) : bool :=
  (state (st_pss s) <=? state (st_after s)) ||
  (is_resend (st_call s) &&
   (state (st_pss s) =? STATE_WAIT_ACK1) &&
   (state (st_after s) =? STATE_PUBLISH_QOS1)).

(** The resend request of this step, if it is one, found the session in
    [STATE_WAIT_ACK1]. *)
Definition resend_awaited (s : step) : bool :=
  negb (is_resend (st_call s)) || (state (st_pss s) =? STATE_WAIT_ACK1).

(** The fatal conditions: connection error, closure, an error return
    from the WRITEABLE callback (a failed send; no other reason returns
    non-zero), the retry counter reaching 3. *)
Definition fatal (s : step) : bool :=
  match reason (st_call s) with
  | LWS_CALLBACK_CLIENT_CONNECTION_ERROR => true
  | LWS_CALLBACK_MQTT_CLIENT_CLOSED => true
  | LWS_CALLBACK_MQTT_RESEND => retries (st_after s) =? 3
  | LWS_CALLBACK_MQTT_CLIENT_WRITEABLE => negb (st_ret s =? 0)
  | _ => false
  end.

(** What holds of session and flags from the initial state on as long
    as no callback is dispatched after [interrupted] was set: in
    particular throughout a run in which every call of [lws_service]
    dispatches one callback. *)
Definition session_inv (p : pss) (g : globals) : Prop :=
  (interrupted g = 0 \/ interrupted g = 1) /\
  (bad g = 0 \/ bad g = 1) /\
  0 <= retries p <= 3 /\
  - retries p <= state p <= STATE_TEST_FINISH /\
  (interrupted g = 0 -> retries p < 3 /\ state p < STATE_TEST_FINISH) /\
  (bad g = 0 <-> state p = STATE_TEST_FINISH) /\
  (retries p = 3 -> interrupted g = 1 /\ bad g = 1).

(** How one callback relates the session before and after it. *)
Definition step_shape (c : call) (p : pss) (g : globals)
                      (p' : pss) (g' : globals) : Prop :=
  match reason c with
  | LWS_CALLBACK_MQTT_RESEND =>
      retries p' = retries p + 1 /\
      ((retries p' = 3 /\ state p' = state p /\ pos p' = pos p /\
        g' = mk_globals 1 (bad g)) \/
       (retries p' < 3 /\ state p' = state p - 1 /\ pos p' = 0 /\ g' = g))
  | LWS_CALLBACK_MQTT_ACK =>
      retries p' = retries p /\ pos p' = pos p /\
      state p' = state p + 1 /\
      ((state p' = STATE_TEST_FINISH /\ g' = mk_globals 1 0) \/
       (state p' <> STATE_TEST_FINISH /\ g' = g))
  | LWS_CALLBACK_MQTT_CLIENT_WRITEABLE =>
      retries p' = retries p /\ g' = g /\
      (state p' = state p \/
       (state p' = state p + 1 /\
        (state p = STATE_SUBSCRIBE \/ state p = STATE_PUBLISH_QOS0 \/
         state p = STATE_PUBLISH_QOS1)))
  | LWS_CALLBACK_CLIENT_CONNECTION_ERROR
  | LWS_CALLBACK_MQTT_CLIENT_CLOSED =>
      p' = p /\ g' = mk_globals 1 (bad g)
  | _ =>
      p' = p /\ g' = g
  end.

(** A step taken with [interrupted] clear: from a state that satisfies
    the invariant, by the callback, into a state that satisfies the
    invariant again. *)
Definition step_sound (s : step) : Prop :=
  session_inv (st_pss s) (st_globals s) /\
  interrupted (st_globals s) = 0 /\
  st_out s = callback_mqtt (st_call s) (st_pss s) (st_globals s) /\
  session_inv (st_after s) (st_globals_after s) /\
  (st_out s = Aborted \/
   step_shape (st_call s) (st_pss s) (st_globals s)
              (st_after s) (st_globals_after s)).

(** ** Steps of any schedule

    What is said of a step that may have been dispatched after
    [interrupted] was set, within the same [lws_service] call. *)

(** The step stands where [state++], [state--] and [++retries] are
    defined in C. *)
Definition step_in_range (s : step) : Prop :=
  int_min < state (st_pss s) < int_max /\
  int_min <= retries (st_pss s) < int_max.

(** The acknowledgement that takes [STATE_WAIT_ACK1] to
    [STATE_TEST_FINISH]. *)
Definition finishing (s : step) : bool :=
  is_ack (st_call s) && (state (st_pss s) =? STATE_WAIT_ACK1).

(** The acknowledgement of this step, if it is one, found the session
    waiting for it. *)
Definition ack_solicited (s : step) : bool :=
  negb (is_ack (st_call s)) ||
  (state (st_pss s) =? STATE_WAIT_ACK0) ||
  (state (st_pss s) =? STATE_WAIT_ACK1).

(** The [state--] of this step, if it is a resend request, is defined. *)
Definition resend_defined (s : step) : bool :=
  negb (is_resend (st_call s)) || (int_min <? state (st_pss s)).

(** The five edges of the legitimate sequence. *)
Inductive milestone :=
| SubscribeAccepted
| Qos0Complete
| Ack0
| Qos1Complete
| Ack1.

Definition milestone_eqb (a b : milestone) : bool :=
  match a, b with
  | SubscribeAccepted, SubscribeAccepted => true
  | Qos0Complete, Qos0Complete => true
  | Ack0, Ack0 => true
  | Qos1Complete, Qos1Complete => true
  | Ack1, Ack1 => true
  | _, _ => false
  end.

(** A publish flagged final is among the actions. *)
Definition sent_final (acts : list action) : bool :=
  existsb (fun a => match a with
                    | lws_mqtt_client_send_publish _ _ _ fin => fin
                    | _ => false
                    end) acts.

(** The milestone a step passes: a subscribe or a final chunk that the
    send primitive accepted, or an acknowledgement received in one of
    the two waiting states. *)
Definition milestone_of (s : step) : option milestone :=
  match st_out s with
  | Aborted => None
  | Returned r _ _ acts =>
      match reason (st_call s) with
      | LWS_CALLBACK_MQTT_CLIENT_WRITEABLE =>
          if r =? 0 then
            if state (st_pss s) =? STATE_SUBSCRIBE then Some SubscribeAccepted
            else if (state (st_pss s) =? STATE_PUBLISH_QOS0) && sent_final acts
            then Some Qos0Complete
            else if (state (st_pss s) =? STATE_PUBLISH_QOS1) && sent_final acts
            then Some Qos1Complete
            else None
          else None
      | LWS_CALLBACK_MQTT_ACK =>
          if state (st_pss s) =? STATE_WAIT_ACK0 then Some Ack0
          else if state (st_pss s) =? STATE_WAIT_ACK1 then Some Ack1
          else None
      | _ => None
      end
  end.

Definition milestones (tr : list step) : list milestone :=
  flat_map (fun s => match milestone_of s with
                     | Some m => [m]
                     | None => []
                     end) tr.

Definition full_sequence : list milestone :=
  [SubscribeAccepted; Qos0Complete; Ack0; Qos1Complete; Ack1].

(** The milestones still ahead of a session in state [st]. *)
Definition remaining (st : Z) : list milestone :=
  if st <=? STATE_SUBSCRIBE then full_sequence
  else if st =? STATE_PUBLISH_QOS0 then [Qos0Complete; Ack0; Qos1Complete; Ack1]
  else if st =? STATE_WAIT_ACK0 then [Ack0; Qos1Complete; Ack1]
  else if st =? STATE_PUBLISH_QOS1 then [Qos1Complete; Ack1]
  else if st =? STATE_WAIT_ACK1 then [Ack1]
  else [].

(** [l] occurs in [m], in order, possibly with other elements between. *)
Fixpoint subseq (l m : list milestone) : bool :=
  match l, m with
  | [], _ => true
  | _ :: _, [] => false
  | x :: l', y :: m' =>
      if milestone_eqb x y then subseq l' m' else subseq l m'
  end.

(** What holds of session and flags under every schedule: the flags are
    0 or 1, [bad] is cleared only with [interrupted] set, the two [int]
    fields are [int] values, and as long as [interrupted] is clear the
    retry counter is below 3, the state below [STATE_TEST_FINISH] and
    [bad] set. *)
Definition live_inv (p : pss) (g : globals) : Prop :=
  (interrupted g = 0 \/ interrupted g = 1) /\
  (bad g = 0 \/ bad g = 1) /\
  (bad g = 0 -> interrupted g = 1) /\
  int_min <= state p <= int_max /\
  int_min <= retries p <= int_max /\
  (interrupted g = 0 ->
   0 <= retries p < 3 /\ - retries p <= state p < STATE_TEST_FINISH).

(** A step of any schedule; if it was dispatched with [interrupted]
    clear it is a step in the sense above. *)
Definition sched_step (s : step) : Prop :=
  live_inv (st_pss s) (st_globals s) /\
  st_out s = callback_mqtt (st_call s) (st_pss s) (st_globals s) /\
  live_inv (st_after s) (st_globals_after s) /\
  (interrupted (st_globals s) = 0 -> step_sound s).

(** ** Connection set-up and the run controller

    [sigint_handler], [connect_client], [system_notify_cb] and [main].
    The values of [LCCSCF_USE_SSL], [LCCSCF_ALLOW_SELFSIGNED] and
    [LWS_SYSTATE_OPERATIONAL] come from the library header and are taken
    as parameters.  Option parsing and the fields of the context creation
    info have no influence on the session and are left out. *)

Record lws_mqtt_client_connect_param_t := mk_connect_param {
  client_id : string;
  keep_alive : Z;
  clean_start : Z;
  will_topic : string;
  will_message : string;
  will_qos : Z;
  will_retain : Z;
  username : string;
  password : string
}.

Definition client_connect_param : lws_mqtt_client_connect_param_t :=
  mk_connect_param "lwsMqttClient" 60 1 "good/bye" "sign-off" 0 0
                   "lwsUser" "mySecretPassword".

(** The fields of [struct lws_client_connect_info] that [connect_client]
    assigns after the [memset]. *)
Record lws_client_connect_info := mk_connect_info {
  mqtt_cp : lws_mqtt_client_connect_param_t;
  address : string;
  host : string;
  protocol : string;
  method : string;
  alpn : string;
  port : Z;
  ssl_connection : Z
}.

(** [interrupted = 1] *)
Definition sigint_handler (g : globals) : globals :=
  mk_globals 1 (bad g).

Section Library.

Variable LCCSCF_USE_SSL : Z.
Variable LCCSCF_ALLOW_SELFSIGNED : Z.
Variable LWS_SYSTATE_OPERATIONAL : Z.

(** [connected] tells whether [lws_client_connect_via_info] returned a
    connection.  The result is the return value and the info the library
    was handed. *)
Definition connect_client (do_ssl : Z) (connected : bool)
  : Z * lws_client_connect_info :=
  let i := mk_connect_info client_connect_param
             "localhost" "localhost" "mqtt" "MQTT" "mqtt" 1883 0 in
  let i := if negb (do_ssl =? 0)
           then mk_connect_info (mqtt_cp i) (address i) (host i) (protocol i)
                  (method i) (alpn i) 8883
                  (Z.lor LCCSCF_USE_SSL LCCSCF_ALLOW_SELFSIGNED)
           else i in
  if negb connected then (1, i) else (0, i).

(** Return value, flags afterwards, and the connection attempts made. *)
Definition system_notify_cb (current target : Z) (do_ssl : Z)
           (connected : bool) (g : globals)
  : Z * globals * list lws_client_connect_info :=
  if negb (current =? LWS_SYSTATE_OPERATIONAL) ||
     negb (target =? LWS_SYSTATE_OPERATIONAL)
  then (0, g, [])
  else
    let (rc, i) := connect_client do_ssl connected in
    if negb (rc =? 0)
    then (0, mk_globals 1 (bad g), [i])
    else (0, g, [i]).

(** What happens during a call of [lws_service]: protocol callbacks,
    system state notifications and SIGINT, in the order in which they
    take effect.  The signal handler only writes [interrupted], which no
    callback reads, so a signal that arrives inside a callback is the
    same as one that arrives just before or after it. *)
Inductive happening :=
| Dispatch (c : call)
| Notify (current target : Z) (connected : bool)
| Sigint.

(** One turn of the loop: what happens during the call, and the value
    [lws_service] returns. *)
Record turn := mk_turn {
  happens : list happening;
  service_ret : Z
}.

(** One call of [lws_service]; [None] at a failed assertion. *)
Fixpoint serve (do_ssl : Z) (hs : list happening) (p : pss) (g : globals)
  : option (pss * globals) :=
  match hs with
  | [] => Some (p, g)
  | Dispatch c :: rest =>
      match callback_mqtt c p g with
      | Aborted => None
      | Returned _ p' g' _ => serve do_ssl rest p' g'
      end
  | Notify current target connected :: rest =>
      serve do_ssl rest p
        (snd (fst (system_notify_cb current target do_ssl connected g)))
  | Sigint :: rest =>
      serve do_ssl rest p (sigint_handler g)
  end.

(** The protocol callbacks of one call of [lws_service], as steps. *)
Fixpoint serve_trace (do_ssl : Z) (hs : list happening)
         (p : pss) (g : globals) : list step :=
  match hs with
  | [] => []
  | Dispatch c :: rest =>
      match callback_mqtt c p g with
      | Aborted => [mk_step c p g Aborted]
      | Returned r p' g' acts =>
          mk_step c p g (Returned r p' g' acts)
            :: serve_trace do_ssl rest p' g'
      end
  | Notify current target connected :: rest =>
      serve_trace do_ssl rest p
        (snd (fst (system_notify_cb current target do_ssl connected g)))
  | Sigint :: rest =>
      serve_trace do_ssl rest p (sigint_handler g)
  end.

(** The loop after the given turns: stopped at the assertion, still
    turning, or left. *)
Inductive loop_result :=
| Crashed
| Running (n : Z) (p : pss) (g : globals)
| Left (p : pss) (g : globals).

(** [while (n >= 0 && !interrupted) n = lws_service(context, 0);] *)
Fixpoint event_loop (do_ssl : Z) (ts : list turn) (n : Z)
         (p : pss) (g : globals) : loop_result :=
  if (0 <=? n) && (interrupted g =? 0) then
    match ts with
    | [] => Running n p g
    | t :: rest =>
        match serve do_ssl (happens t) p g with
        | None => Crashed
        | Some (p', g') => event_loop do_ssl rest (service_ret t) p' g'
        end
    end
  else Left p g.

(** The protocol callbacks the loop dispatched. *)
Fixpoint loop_trace (do_ssl : Z) (ts : list turn) (n : Z)
         (p : pss) (g : globals) : list step :=
  if (0 <=? n) && (interrupted g =? 0) then
    match ts with
    | [] => []
    | t :: rest =>
        serve_trace do_ssl (happens t) p g ++
        match serve do_ssl (happens t) p g with
        | None => []
        | Some (p', g') => loop_trace do_ssl rest (service_ret t) p' g'
        end
    end
  else [].

(** How the process ends, if it does. *)
Inductive main_result :=
| Asserted
| NotYet
| Exit (status : Z) (p : pss) (g : globals).

(** [s_option]: [-s] is on the command line; [context_ok]:
    [lws_create_context] succeeded. *)
Definition main (s_option context_ok : bool) (ts : list turn) : main_result :=
  let do_ssl := if s_option then 1 else 0 in
  if negb context_ok then Exit 1 pss_init globals_init
  else
    match event_loop do_ssl ts 0 pss_init globals_init with
    | Crashed => Asserted
    | Running _ _ _ => NotYet
    | Left p g => Exit (bad g) p g
    end.

(** The protocol callbacks dispatched before [main] returns. *)
Definition main_trace (s_option context_ok : bool) (ts : list turn)
  : list step :=
  if negb context_ok then []
  else loop_trace (if s_option then 1 else 0) ts 0 pss_init globals_init.

End Library.

(** ** Further observations *)

(** A chunk that lies inside the test payload, is not empty, respects
    the ceiling, and is marked final exactly if it ends the payload. *)
Definition chunk_in_payload (c : chunk) : Prop :=
  0 <= chunk_off c /\
  1 <= chunk_len c <= MAX_CHUNK /\
  chunk_end c <= TEST_STRING_LEN /\
  (chunk_final c = true <-> chunk_end c = TEST_STRING_LEN).

(** Where each library call may come from. *)
Definition action_justified (c : call) (p p' : pss) (g' : globals)
           (a : action) : Prop :=
  match a with
  | lws_callback_on_writable =>
      reason c = LWS_CALLBACK_MQTT_CLIENT_ESTABLISHED
  | lws_mqtt_client_send_subcribe sub =>
      reason c = LWS_CALLBACK_MQTT_CLIENT_WRITEABLE /\
      state p = STATE_SUBSCRIBE /\ sub = sub_param
  | lws_mqtt_client_send_publish pub off _ _ =>
      reason c = LWS_CALLBACK_MQTT_CLIENT_WRITEABLE /\
      ((state p = STATE_PUBLISH_QOS0 /\ qos pub = QOS0) \/
       (state p = STATE_PUBLISH_QOS1 /\ qos pub = QOS1)) /\
      pub_topic pub = "test/topic"%string /\ topic_len pub = 10 /\
      payload_len pub = TEST_STRING_LEN /\ off = pos p
  | lws_get_context
  | lws_cancel_service =>
      reason c = LWS_CALLBACK_MQTT_ACK /\
      state p = STATE_WAIT_ACK1 /\ state p' = STATE_TEST_FINISH /\
      bad g' = 0
  end.

(** Subscribe, QoS0 leg and its ack, QoS1 leg, then [k] resend requests
    each followed by the leg again, then the ack. *)
Definition scenario_resends (k : nat) : list call :=
  [writable_ok] ++ publish_burst ++ [ack] ++ publish_burst ++
  List.concat (repeat ([resend] ++ publish_burst) k) ++ [ack].

(** ** Facts about the embedding *)

Lemma test_string_length : Z.of_nat (String.length test_string) = TEST_STRING_LEN.
Proof. vm_compute. reflexivity. Qed.

(** Closes range side conditions on concrete sessions. *)
Ltac in_range :=
  cbn [state pos retries interrupted bad];
  unfold int_min, int_max, size_modulus, STATE_SUBSCRIBE, STATE_PUBLISH_QOS0,
    STATE_WAIT_ACK0, STATE_PUBLISH_QOS1, STATE_WAIT_ACK1, STATE_TEST_FINISH;
  lia.

Lemma wrap_int_small (z : Z) : int_min <= z <= int_max -> wrap_int z = z.
Proof.
  unfold int_min, int_max, wrap_int. intros H.
  rewrite Z.mod_small; lia.
Qed.

Lemma wrap_size_small (z : Z) : 0 <= z < size_modulus -> wrap_size z = z.
Proof. unfold wrap_size. intros H. now apply Z.mod_small. Qed.

(** ** The chunked payload feeder *)

Section Feeder.

Variables L C : Z.
Hypothesis L_range : 0 <= L < size_modulus.
Hypothesis C_range : 1 <= C < size_modulus.

Lemma next_chunk_min (cursor : Z) :
  0 <= cursor <= L -> next_chunk L C cursor = Z.min C (L - cursor).
Proof.
  intros Hc. unfold next_chunk.
  rewrite (wrap_size_small L), (wrap_size_small C), (wrap_size_small (L - cursor))
    by lia.
  destruct (Z.ltb_spec (L - cursor) C); lia.
Qed.

Lemma is_final_chunk_spec (cursor len : Z) :
  0 <= cursor -> 0 <= len -> cursor + len <= L ->
  is_final_chunk L cursor len = (cursor + len =? L).
Proof.
  intros. unfold is_final_chunk.
  now rewrite (wrap_size_small L), (wrap_size_small (cursor + len)) by lia.
Qed.

(** A chunk that does not reach the end: the cursor advances by [C] and
    the state stays. *)
Lemma writeable_more (s cursor r : Z) (g : globals) :
  s = STATE_PUBLISH_QOS0 \/ s = STATE_PUBLISH_QOS1 ->
  0 <= cursor -> cursor + C < L ->
  callback_mqtt_with L C writable_ok (mk_pss s cursor r) g =
  Returned 0 (mk_pss s (cursor + C) r) g
    [lws_mqtt_client_send_publish (pub_of L s) cursor C false].
Proof.
  intros Hs H0 Hlt. unfold callback_mqtt_with, writeable; cbn [reason writable_ok send_rc state pos retries].
  rewrite next_chunk_min by lia.
  rewrite Z.min_l by lia.
  rewrite is_final_chunk_spec by lia.
  rewrite (wrap_size_small L), (wrap_size_small (cursor + C)) by lia.
  replace (cursor + C =? L) with false by (symmetry; apply Z.eqb_neq; lia).
  unfold publish_action, pub_of; cbn [chunk_off chunk_len chunk_final fst snd].
  destruct Hs as [-> | ->]; reflexivity.
Qed.

(** The chunk that reaches the end: it is marked final, the cursor goes
    back to 0 and the state advances. *)
Lemma writeable_last (s cursor r : Z) (g : globals) :
  s = STATE_PUBLISH_QOS0 \/ s = STATE_PUBLISH_QOS1 ->
  0 <= cursor <= L -> L - cursor <= C ->
  callback_mqtt_with L C writable_ok (mk_pss s cursor r) g =
  Returned 0 (mk_pss (s + 1) 0 r) g
    [lws_mqtt_client_send_publish (pub_of L s) cursor (L - cursor) true].
Proof.
  intros Hs H0 Hle. unfold callback_mqtt_with, writeable; cbn [reason writable_ok send_rc state pos retries].
  rewrite next_chunk_min by lia.
  rewrite Z.min_r by lia.
  rewrite is_final_chunk_spec by lia.
  rewrite (wrap_size_small L), (wrap_size_small (cursor + (L - cursor))) by lia.
  replace (cursor + (L - cursor) =? L) with true by (symmetry; apply Z.eqb_eq; lia).
  unfold publish_action, pub_of; cbn [chunk_off chunk_len chunk_final fst snd].
  destruct Hs as [-> | ->]; reflexivity.
Qed.

Lemma publish_chunks_actions (len s : Z) (cs : list chunk) :
  publish_chunks (map (publish_action len s) cs) = cs.
Proof.
  induction cs as [|[[o l] f] cs IH]; [reflexivity|].
  unfold publish_chunks in *. cbn. now rewrite IH.
Qed.

Lemma final_count_last (front : list chunk) (c : chunk) :
  Forall (fun x => chunk_final x = false) front ->
  chunk_final c = true ->
  final_count (front ++ [c]) = 1%nat.
Proof.
  intros Hf Hc. unfold final_count. rewrite filter_app. cbn. rewrite Hc.
  induction Hf as [|x front Hx _ IH]; [reflexivity|].
  cbn. rewrite Hx. exact IH.
Qed.

Lemma total_len_cons (c : chunk) (cs : list chunk) :
  total_len (c :: cs) = chunk_len c + total_len cs.
Proof. reflexivity. Qed.

Lemma publish_leg_unfold (fuel : nat) (p : pss) (g : globals) :
  publish_leg L C (S fuel) p g =
  match callback_mqtt_with L C writable_ok p g with
  | Aborted => None
  | Returned _ p' g' acts =>
      if state p' =? state p
      then match publish_leg L C fuel p' g' with
           | Some (more, q) => Some (acts ++ more, q)
           | None => None
           end
      else Some (acts, p')
  end.
Proof. reflexivity. Qed.

(** From any cursor short of the end (or from 0 on an empty payload) the
    leg terminates within [L - cursor] further callbacks; what it sends
    is a contiguous run of non-final chunks followed by one final chunk
    that ends at [L]. *)
Lemma publish_leg_from (n : nat) :
  forall (s cursor r : Z) (g : globals),
    s = STATE_PUBLISH_QOS0 \/ s = STATE_PUBLISH_QOS1 ->
    0 <= cursor <= L -> cursor < L \/ L = 0 ->
    L - cursor <= Z.of_nat n ->
    exists (front : list chunk) (last : chunk),
      publish_leg L C (S n) (mk_pss s cursor r) g =
        Some (map (publish_action L s) (front ++ [last]), mk_pss (s + 1) 0 r) /\
      Forall (fun c => chunk_final c = false /\ chunk_len c = C) front /\
      chunk_final last = true /\ chunk_end last = L /\
      0 <= chunk_len last <= C /\
      contiguous cursor (front ++ [last]) /\
      total_len (front ++ [last]) = L - cursor.
Proof.
  induction n as [|m IH]; intros s cursor r g Hs Hc Hne Hn;
    rewrite publish_leg_unfold;
    destruct (Z_le_gt_dec (L - cursor) C) as [Hlast | Hmore].
  - rewrite writeable_last by assumption. cbn [state].
    replace (s + 1 =? s) with false by (symmetry; apply Z.eqb_neq; lia).
    exists [], (cursor, L - cursor, true). cbn.
    unfold chunk_end, chunk_off, chunk_len; cbn. repeat split; try lia; auto.
  - lia.
  - rewrite writeable_last by assumption. cbn [state].
    replace (s + 1 =? s) with false by (symmetry; apply Z.eqb_neq; lia).
    exists [], (cursor, L - cursor, true). cbn.
    unfold chunk_end, chunk_off, chunk_len; cbn. repeat split; try lia; auto.
  - rewrite writeable_more by (try assumption; lia). cbn [state].
    rewrite Z.eqb_refl.
    destruct (IH s (cursor + C) r g Hs) as
      (front & last & Hleg & Hfront & Hfin & Hend & Hlen & Hcont & Htot);
      try lia.
    rewrite Hleg.
    exists ((cursor, C, false) :: front), last.
    repeat split; try assumption; try lia.
    + constructor; [split; reflexivity | exact Hfront].
    + cbn [app]. rewrite total_len_cons. cbn [chunk_len fst snd].
      change (total_len (front ++ [last]) = L - (cursor + C)) in Htot. lia.
Qed.

End Feeder.

(** C1.  For every payload length [L >= 0] and chunk ceiling [C >= 1]
    (both [size_t] values), WRITEABLE callbacks delivered to a publishing
    session from cursor 0 end the leg within [L + 1] callbacks.  Every
    action issued is a publish; the chunks are contiguous from offset 0,
    their sizes sum to [L], exactly one of them is marked final, it is the
    last one and ends at offset [L].  For [L = 0] the leg sends exactly one
    zero-length final chunk.  The session leaves the leg in the next state
    with the cursor back at 0. *)
Theorem feeder_covers_payload (L C s r : Z) (g : globals) :
  0 <= L < size_modulus -> 1 <= C < size_modulus ->
  s = STATE_PUBLISH_QOS0 \/ s = STATE_PUBLISH_QOS1 ->
  exists (acts : list action) (front : list chunk) (last : chunk),
    publish_leg L C (S (Z.to_nat L)) (mk_pss s 0 r) g =
      Some (acts, mk_pss (s + 1) 0 r) /\
    acts = map (publish_action L s) (publish_chunks acts) /\
    publish_chunks acts = front ++ [last] /\
    contiguous 0 (publish_chunks acts) /\
    total_len (publish_chunks acts) = L /\
    final_count (publish_chunks acts) = 1%nat /\
    chunk_final last = true /\ chunk_end last = L /\
    (L = 0 -> publish_chunks acts = [(0, 0, true)]).
Proof.
  intros HL HC Hs.
  destruct (publish_leg_from L C HL HC (Z.to_nat L) s 0 r g Hs)
    as (front & last & Hleg & Hfront & Hfin & Hend & Hlen & Hcont & Htot);
    try lia.
  exists (map (publish_action L s) (front ++ [last])), front, last.
  rewrite publish_chunks_actions.
  repeat split; try assumption; try lia.
  - apply final_count_last; [|assumption].
    eapply Forall_impl; [|exact Hfront]. now intros c [Hc _].
  - intros ->. cbn [Z.to_nat] in Hleg.
    rewrite publish_leg_unfold, (writeable_last 0 C) in Hleg by (assumption || lia).
    cbn [state] in Hleg.
    replace (s + 1 =? s) with false in Hleg by (symmetry; apply Z.eqb_neq; lia).
    injection Hleg as Hacts.
    apply (f_equal publish_chunks) in Hacts.
    change [publish_action 0 s (0, 0 - 0, true)]
      with (map (publish_action 0 s) [(0, 0 - 0, true)]) in Hacts.
    rewrite !publish_chunks_actions in Hacts. now rewrite <- Hacts.
Qed.

Lemma feeder_covers_payload_witness :
  exists (acts : list action) (front : list chunk) (last : chunk),
    publish_leg 7 3 (S (Z.to_nat 7)) (mk_pss STATE_PUBLISH_QOS1 0 0) globals_init =
      Some (acts, mk_pss (STATE_PUBLISH_QOS1 + 1) 0 0) /\
    acts = map (publish_action 7 STATE_PUBLISH_QOS1) (publish_chunks acts) /\
    publish_chunks acts = front ++ [last] /\
    contiguous 0 (publish_chunks acts) /\
    total_len (publish_chunks acts) = 7 /\
    final_count (publish_chunks acts) = 1%nat /\
    chunk_final last = true /\ chunk_end last = 7 /\
    (7 = 0 -> publish_chunks acts = [(0, 0, true)]).
Proof.
  apply (feeder_covers_payload 7 3 STATE_PUBLISH_QOS1 0 globals_init).
  - unfold size_modulus; lia.
  - unfold size_modulus; lia.
  - right; reflexivity.
Defined.

Example feeder_7_by_3 :
  publish_leg 7 3 8 (mk_pss STATE_PUBLISH_QOS0 0 0) globals_init =
  Some (map (publish_action 7 STATE_PUBLISH_QOS0)
          [(0, 3, false); (3, 3, false); (6, 1, true)],
        mk_pss STATE_WAIT_ACK0 0 0).
Proof. reflexivity. Qed.

Example feeder_empty_payload :
  publish_leg 0 300 1 (mk_pss STATE_PUBLISH_QOS0 0 0) globals_init =
  Some ([publish_action 0 STATE_PUBLISH_QOS0 (0, 0, true)],
        mk_pss STATE_WAIT_ACK0 0 0).
Proof. reflexivity. Qed.

(** ** Single callbacks *)

(** C7.  With the payload of 1337 bytes and the ceiling of 300, a publish
    leg (QoS0 or QoS1) driven by WRITEABLE callbacks sends exactly five
    chunks, of sizes 300, 300, 300, 300 and 137; only the fifth, which
    brings the cursor to 1337, carries the final flag.  Four callbacks do
    not finish the leg.  It makes no difference whether the five
    callbacks come in five calls of [lws_service] or in one. *)
Theorem scenario_A_five_chunks (r : Z) (g : globals) :
  publish_leg TEST_STRING_LEN MAX_CHUNK 5 (mk_pss STATE_PUBLISH_QOS0 0 r) g =
    Some (map (publish_action 1337 STATE_PUBLISH_QOS0)
            [(0, 300, false); (300, 300, false); (600, 300, false);
             (900, 300, false); (1200, 137, true)],
          mk_pss STATE_WAIT_ACK0 0 r) /\
  publish_leg TEST_STRING_LEN MAX_CHUNK 5 (mk_pss STATE_PUBLISH_QOS1 0 r) g =
    Some (map (publish_action 1337 STATE_PUBLISH_QOS1)
            [(0, 300, false); (300, 300, false); (600, 300, false);
             (900, 300, false); (1200, 137, true)],
          mk_pss STATE_WAIT_ACK1 0 r) /\
  publish_leg TEST_STRING_LEN MAX_CHUNK 4 (mk_pss STATE_PUBLISH_QOS0 0 r) g = None /\
  publish_leg TEST_STRING_LEN MAX_CHUNK 4 (mk_pss STATE_PUBLISH_QOS1 0 r) g = None /\
  map (fun c => (chunk_len c, chunk_final c))
    (publish_chunks
       (actions_of (run (one_per_call publish_burst)
                      (mk_pss STATE_PUBLISH_QOS1 0 0) globals_init))) =
    [(300, false); (300, false); (300, false); (300, false); (137, true)] /\
  map (fun c => (chunk_len c, chunk_final c))
    (publish_chunks
       (actions_of (run [publish_burst]
                      (mk_pss STATE_PUBLISH_QOS1 0 0) globals_init))) =
    [(300, false); (300, false); (300, false); (300, false); (137, true)].
Proof. repeat split; reflexivity. Qed.

(** The five chunks carry the test string, in order and without overlap. *)
Lemma scenario_A_bytes :
  let cs := publish_chunks
              (actions_of (run (one_per_call publish_burst)
                             (mk_pss STATE_PUBLISH_QOS0 0 0) globals_init)) in
  fold_right String.append EmptyString (map chunk_bytes cs) = test_string.
Proof. vm_compute. reflexivity. Qed.

(** C6.  A WRITEABLE callback in [STATE_WAIT_ACK0], [STATE_WAIT_ACK1] or
    [STATE_TEST_FINISH] returns 0, leaves state, cursor, retry counter and
    both flags as they were and calls nothing. *)
Theorem writeable_is_noop_when_waiting (c : call) (p : pss) (g : globals) :
  reason c = LWS_CALLBACK_MQTT_CLIENT_WRITEABLE ->
  state p = STATE_WAIT_ACK0 \/ state p = STATE_WAIT_ACK1 \/
  state p = STATE_TEST_FINISH ->
  callback_mqtt c p g = Returned 0 p g [].
Proof.
  intros Hr Hs. unfold callback_mqtt, callback_mqtt_with, writeable.
  rewrite Hr. destruct Hs as [-> | [-> | ->]]; reflexivity.
Qed.

Lemma writeable_is_noop_when_waiting_witness :
  callback_mqtt (writable_fail 7) (mk_pss STATE_WAIT_ACK1 0 2) globals_init =
  Returned 0 (mk_pss STATE_WAIT_ACK1 0 2) globals_init [].
Proof.
  apply (writeable_is_noop_when_waiting (writable_fail 7)
           (mk_pss STATE_WAIT_ACK1 0 2) globals_init).
  - reflexivity.
  - right; left; reflexivity.
Defined.

(** A failed send: the callback gives up at once and changes nothing. *)
Lemma writeable_send_failure (c : call) (p : pss) (g : globals) :
  reason c = LWS_CALLBACK_MQTT_CLIENT_WRITEABLE ->
  send_rc c <> 0 ->
  state p = STATE_SUBSCRIBE \/ state p = STATE_PUBLISH_QOS0 \/
  state p = STATE_PUBLISH_QOS1 ->
  exists act : action,
    is_send act = true /\
    callback_mqtt c p g = Returned (-1) p g [act].
Proof.
  intros Hr Hrc Hs. unfold callback_mqtt, callback_mqtt_with, writeable.
  rewrite Hr. apply Z.eqb_neq in Hrc. rewrite Hrc.
  destruct Hs as [-> | [-> | ->]]; cbn [Z.eqb STATE_SUBSCRIBE STATE_PUBLISH_QOS0
    STATE_PUBLISH_QOS1 orb Pos.eqb]; eexists; (split; [|reflexivity]); reflexivity.
Qed.

(** C8.  When the send primitive invoked by a WRITEABLE callback
    (subscribe in [STATE_SUBSCRIBE], publish in the two publishing states)
    returns non-zero, the callback returns -1 at once: state, cursor and
    retry counter are those before the call, and both flags are untouched,
    so [bad] keeps its value.  The failed send is the only call made. *)
Theorem send_failure_returns_error (c : call) (p : pss) (g : globals) :
  reason c = LWS_CALLBACK_MQTT_CLIENT_WRITEABLE ->
  send_rc c <> 0 ->
  state p = STATE_SUBSCRIBE \/ state p = STATE_PUBLISH_QOS0 \/
  state p = STATE_PUBLISH_QOS1 ->
  exists act : action,
    is_send act = true /\
    callback_mqtt c p g = Returned (-1) p g [act].
Proof. exact (writeable_send_failure c p g). Qed.

Lemma send_failure_returns_error_witness :
  exists act : action,
    is_send act = true /\
    callback_mqtt (writable_fail 1) (mk_pss STATE_PUBLISH_QOS1 600 1) globals_init =
    Returned (-1) (mk_pss STATE_PUBLISH_QOS1 600 1) globals_init [act].
Proof.
  apply (send_failure_returns_error (writable_fail 1)
           (mk_pss STATE_PUBLISH_QOS1 600 1) globals_init).
  - reflexivity.
  - cbn; lia.
  - right; right; reflexivity.
Defined.

(** C9.  An ACK callback adds one to the state whatever the state is
    (for every [int] value on which [++] is defined), touching neither the
    cursor nor the retry counter.  If the new state is
    [STATE_TEST_FINISH], [bad] is cleared, [interrupted] is set and
    [lws_cancel_service] is called, on the context that [lws_get_context]
    gives; for every other new state the flags are left alone and nothing
    is called. *)
Theorem ack_advances_from_any_state (c : call) (p : pss) (g : globals) :
  reason c = LWS_CALLBACK_MQTT_ACK ->
  int_min <= state p < int_max ->
  callback_mqtt c p g =
    if state p + 1 =? STATE_TEST_FINISH
    then Returned 0 (mk_pss (state p + 1) (pos p) (retries p))
                  (mk_globals 1 0) [lws_get_context; lws_cancel_service]
    else Returned 0 (mk_pss (state p + 1) (pos p) (retries p)) g [].
Proof.
  intros Hr Hs. unfold callback_mqtt, callback_mqtt_with. rewrite Hr.
  cbn [state]. rewrite wrap_int_small by lia.
  now destruct (state p + 1 =? STATE_TEST_FINISH).
Qed.

Lemma ack_advances_from_any_state_witness :
  callback_mqtt ack (mk_pss STATE_SUBSCRIBE 0 0) globals_init =
    Returned 0 (mk_pss STATE_PUBLISH_QOS0 0 0) globals_init [] /\
  callback_mqtt ack (mk_pss STATE_WAIT_ACK1 0 0) globals_init =
    Returned 0 (mk_pss STATE_TEST_FINISH 0 0) (mk_globals 1 0)
      [lws_get_context; lws_cancel_service].
Proof.
  split.
  - apply (ack_advances_from_any_state ack (mk_pss STATE_SUBSCRIBE 0 0)
             globals_init); [reflexivity | in_range].
  - apply (ack_advances_from_any_state ack (mk_pss STATE_WAIT_ACK1 0 0)
             globals_init); [reflexivity | in_range].
Defined.

(** C10.  A RESEND callback never reads the state.  With [r] the retry
    counter after the increment: if [r < 3] the state goes down by one and
    the cursor to 0, in every state (from [STATE_PUBLISH_QOS0] this is the
    edge back to [STATE_SUBSCRIBE]); if [r = 3] only [interrupted] is set
    and state and cursor stay.  The counter is stored in both cases, [bad]
    is never written and nothing is called. *)
Theorem resend_ignores_state (c : call) (p : pss) (g : globals) :
  reason c = LWS_CALLBACK_MQTT_RESEND ->
  int_min < state p <= int_max ->
  int_min <= retries p < int_max ->
  (retries p + 1 < 3 ->
   callback_mqtt c p g =
     Returned 0 (mk_pss (state p - 1) 0 (retries p + 1)) g []) /\
  (retries p + 1 = 3 ->
   callback_mqtt c p g =
     Returned 0 (mk_pss (state p) (pos p) 3) (mk_globals 1 (bad g)) []).
Proof.
  intros Hr Hs Hn. unfold callback_mqtt, callback_mqtt_with. rewrite Hr.
  rewrite (wrap_int_small (retries p + 1)), (wrap_int_small (state p - 1))
    by lia.
  split; intros H.
  - now replace (retries p + 1 =? 3) with false
      by (symmetry; apply Z.eqb_neq; lia).
  - now rewrite H.
Qed.

Lemma resend_ignores_state_witness :
  (0 + 1 < 3 ->
   callback_mqtt resend (mk_pss STATE_PUBLISH_QOS0 600 0) globals_init =
     Returned 0 (mk_pss STATE_SUBSCRIBE 0 1) globals_init []) /\
  (2 + 1 = 3 ->
   callback_mqtt resend (mk_pss STATE_PUBLISH_QOS0 600 2) globals_init =
     Returned 0 (mk_pss STATE_PUBLISH_QOS0 600 3) (mk_globals 1 1) []).
Proof.
  split.
  - apply (resend_ignores_state resend (mk_pss STATE_PUBLISH_QOS0 600 0)
             globals_init);
      [reflexivity | in_range
                   | in_range].
  - apply (resend_ignores_state resend (mk_pss STATE_PUBLISH_QOS0 600 2)
             globals_init);
      [reflexivity | in_range
                   | in_range].
Defined.

(** The test in the resend path is [== 3]: a counter already at 3 or
    beyond rewinds again. *)
Lemma resend_past_the_ceiling (c : call) (p : pss) (g : globals) :
  reason c = LWS_CALLBACK_MQTT_RESEND ->
  int_min < state p <= int_max ->
  3 <= retries p < int_max ->
  callback_mqtt c p g =
    Returned 0 (mk_pss (state p - 1) 0 (retries p + 1)) g [].
Proof.
  intros Hr Hs Hn. unfold callback_mqtt, callback_mqtt_with. rewrite Hr.
  assert (int_min <= 0) by (unfold int_min; lia).
  rewrite (wrap_int_small (retries p + 1)), (wrap_int_small (state p - 1))
    by lia.
  now replace (retries p + 1 =? 3) with false
    by (symmetry; apply Z.eqb_neq; lia).
Qed.

(** C4, as stated, fails: three resend requests in a row, from
    [STATE_WAIT_ACK1], take the session to [STATE_PUBLISH_QOS1] and then
    on to [STATE_WAIT_ACK0]; the second does not find it in
    [STATE_WAIT_ACK1] and does not put it in [STATE_PUBLISH_QOS1]. *)
Lemma consecutive_resends_pass_publish_qos1 :
  run (one_per_call [resend; resend; resend])
      (mk_pss STATE_WAIT_ACK1 0 0) globals_init =
    [ mk_step resend (mk_pss STATE_WAIT_ACK1 0 0) globals_init
        (Returned 0 (mk_pss STATE_PUBLISH_QOS1 0 1) globals_init []);
      mk_step resend (mk_pss STATE_PUBLISH_QOS1 0 1) globals_init
        (Returned 0 (mk_pss STATE_WAIT_ACK0 0 2) globals_init []);
      mk_step resend (mk_pss STATE_WAIT_ACK0 0 2) globals_init
        (Returned 0 (mk_pss STATE_WAIT_ACK0 0 3) (mk_globals 1 1) []) ] /\
  run [[resend; resend; resend]] (mk_pss STATE_WAIT_ACK1 0 0) globals_init =
  run (one_per_call [resend; resend; resend])
      (mk_pss STATE_WAIT_ACK1 0 0) globals_init.
Proof. split; reflexivity. Qed.

(** C4, amended.  A session that is sent a resend request three times,
    each time while it waits in [STATE_WAIT_ACK1] (the QoS1 leg having
    been published again after the first and after the second): the
    first and the second request put it back in [STATE_PUBLISH_QOS1]
    with the cursor at 0, the third sets [interrupted] and leaves [bad]
    as it was.  In the end-to-end run from the initial session the three
    RESEND steps are exactly these and the loop is left with
    [interrupted = 1] and [bad = 1], whether each callback comes in a
    call of [lws_service] of its own or all come in one. *)
Theorem scenario_C_three_resends :
  (forall (cursor : Z) (g : globals),
     callback_mqtt resend (mk_pss STATE_WAIT_ACK1 cursor 0) g =
       Returned 0 (mk_pss STATE_PUBLISH_QOS1 0 1) g [] /\
     callback_mqtt resend (mk_pss STATE_WAIT_ACK1 cursor 1) g =
       Returned 0 (mk_pss STATE_PUBLISH_QOS1 0 2) g [] /\
     callback_mqtt resend (mk_pss STATE_WAIT_ACK1 cursor 2) g =
       Returned 0 (mk_pss STATE_WAIT_ACK1 cursor 3)
         (mk_globals 1 (bad g)) []) /\
  resend_steps (run (one_per_call scenario_C) pss_init globals_init) =
    [ mk_step resend (mk_pss STATE_WAIT_ACK1 0 0) globals_init
        (Returned 0 (mk_pss STATE_PUBLISH_QOS1 0 1) globals_init []);
      mk_step resend (mk_pss STATE_WAIT_ACK1 0 1) globals_init
        (Returned 0 (mk_pss STATE_PUBLISH_QOS1 0 2) globals_init []);
      mk_step resend (mk_pss STATE_WAIT_ACK1 0 2) globals_init
        (Returned 0 (mk_pss STATE_WAIT_ACK1 0 3) (mk_globals 1 1) []) ] /\
  run_final (one_per_call scenario_C) pss_init globals_init =
    (mk_pss STATE_WAIT_ACK1 0 3, mk_globals 1 1) /\
  run [scenario_C] pss_init globals_init =
    run (one_per_call scenario_C) pss_init globals_init /\
  run_final [scenario_C] pss_init globals_init =
    (mk_pss STATE_WAIT_ACK1 0 3, mk_globals 1 1).
Proof.
  split; [|repeat split; vm_compute; reflexivity].
  intros cursor g. repeat split; reflexivity.
Qed.
(** ** Runs with one callback per call of [lws_service] *)

Lemma session_inv_init : session_inv pss_init globals_init.
Proof. unfold session_inv; cbn. in_range. Qed.

Lemma session_inv_retries (p : pss) (g : globals) :
  session_inv p g -> 0 <= retries p <= 3.
Proof. now intros (_ & _ & Hr & _). Qed.

Ltac split_ifs :=
  repeat match goal with
         | H : context [if ?b then _ else _] |- _ => destruct b eqn:?
         end.

(** One callback of a run that has not been interrupted keeps the
    invariant and has the shape its reason dictates. *)
Lemma callback_mqtt_step (c : call) (p : pss) (g : globals)
      (r : Z) (p' : pss) (g' : globals) (acts : list action) :
  session_inv p g -> interrupted g = 0 ->
  callback_mqtt c p g = Returned r p' g' acts ->
  session_inv p' g' /\ step_shape c p g p' g'.
Proof.
  intros (Hi & Hb & Hr & Hs & Hlive & Hbad & Hret) Hint Hcall.
  destruct (Hlive Hint) as [Hr3 Hs5].
  assert (Hb1 : bad g = 1)
    by (destruct Hb as [Hb | Hb]; [apply Hbad in Hb; lia | exact Hb]).
  unfold STATE_TEST_FINISH in *.
  assert (Hw1 : wrap_int (state p + 1) = state p + 1)
    by (apply wrap_int_small; unfold int_min, int_max; lia).
  assert (Hw2 : wrap_int (state p - 1) = state p - 1)
    by (apply wrap_int_small; unfold int_min, int_max; lia).
  assert (Hw3 : wrap_int (retries p + 1) = retries p + 1)
    by (apply wrap_int_small; unfold int_min, int_max; lia).
  destruct c as [rs n rc]. destruct g as [gi gb]. destruct p as [ps pp pr].
  cbn [state pos retries interrupted bad] in *.
  unfold callback_mqtt, callback_mqtt_with, writeable, step_shape, session_inv in *.
  cbn [reason send_rc in_null state pos retries interrupted bad] in *.
  rewrite ?Hw1, ?Hw2, ?Hw3 in Hcall.
  unfold STATE_SUBSCRIBE, STATE_PUBLISH_QOS0, STATE_PUBLISH_QOS1,
    STATE_TEST_FINISH in *.
  destruct rs; split_ifs; try discriminate;
    injection Hcall as <- <- <- <-;
    cbn [state pos retries interrupted bad negb orb] in *;
    repeat match goal with
           | H : negb _ = _ |- _ => rewrite ?negb_true_iff, ?negb_false_iff in H
           | H : (_ || _)%bool = true |- _ => apply orb_true_iff in H
           | H : (_ || _)%bool = false |- _ => apply orb_false_iff in H
           | H : (_ =? _) = true |- _ => apply Z.eqb_eq in H
           | H : (_ =? _) = false |- _ => apply Z.eqb_neq in H
           end;
    (split; [ repeat split; try lia; try (intros; lia) | ]);
    repeat split; try lia; auto;
    right; repeat split; first [lia | reflexivity].
Qed.

(** The arithmetic content of [step_shape]. *)
Lemma step_shape_arith (c : call) (p : pss) (g : globals)
      (p' : pss) (g' : globals) :
  step_shape c p g p' g' ->
  (is_resend c = true /\ retries p' = retries p + 1 /\
   ((retries p' = 3 /\ state p' = state p) \/
    (retries p' < 3 /\ state p' = state p - 1))) \/
  (is_resend c = false /\ retries p' = retries p /\
   state p <= state p' <= state p + 1).
Proof.
  unfold step_shape, is_resend.
  destruct (reason c); intros H;
    try (destruct H as [-> _]; right; repeat split; lia).
  - right. repeat split; lia.
  - right. repeat split; lia.
  - left. split; [reflexivity|]. split; [lia|].
    destruct H as [_ [(? & ? & _) | (? & ? & _)]]; [left | right]; lia.
Qed.

Lemma run_cons (c : call) (rest : list call) (p : pss) (g : globals) :
  (interrupted g <> 0 /\ run (one_per_call (c :: rest)) p g = []) \/
  (interrupted g = 0 /\ callback_mqtt c p g = Aborted /\
   run (one_per_call (c :: rest)) p g = [mk_step c p g Aborted]) \/
  (interrupted g = 0 /\
   exists r p' g' acts,
     callback_mqtt c p g = Returned r p' g' acts /\
     run (one_per_call (c :: rest)) p g =
       mk_step c p g (Returned r p' g' acts) :: run (one_per_call rest) p' g').
Proof.
  cbn [one_per_call map run dispatch dispatch_final].
  destruct (Z.eqb_spec (interrupted g) 0) as [H0 | H0].
  - right. destruct (callback_mqtt c p g) as [|r p' g' acts].
    + left. auto.
    + right. split; [assumption|]. now exists r, p', g', acts.
  - left. auto.
Qed.

Lemma run_final_cons (c : call) (rest : list call) (p : pss) (g : globals) :
  (interrupted g <> 0 /\ run_final (one_per_call (c :: rest)) p g = (p, g)) \/
  (interrupted g = 0 /\ callback_mqtt c p g = Aborted /\
   run_final (one_per_call (c :: rest)) p g = (p, g)) \/
  (interrupted g = 0 /\
   exists r p' g' acts,
     callback_mqtt c p g = Returned r p' g' acts /\
     run_final (one_per_call (c :: rest)) p g = run_final (one_per_call rest) p' g').
Proof.
  cbn [one_per_call map run_final dispatch_final].
  destruct (Z.eqb_spec (interrupted g) 0) as [H0 | H0].
  - right. destruct (callback_mqtt c p g) as [|r p' g' acts].
    + left. auto.
    + right. split; [assumption|]. now exists r, p', g', acts.
  - left. auto.
Qed.

(** Only the received-message callback can stop at the assertion. *)
Lemma aborted_is_rx (c : call) (p : pss) (g : globals) :
  callback_mqtt c p g = Aborted ->
  reason c = LWS_CALLBACK_MQTT_CLIENT_RX /\ in_null c = true.
Proof.
  unfold callback_mqtt, callback_mqtt_with, writeable.
  destruct c as [rs n rc]; cbn [reason in_null send_rc].
  destruct rs; intros H; split_ifs; try discriminate; auto.
Qed.

Lemma run_sound (cs : list call) :
  forall (p : pss) (g : globals),
    session_inv p g -> Forall step_sound (run (one_per_call cs) p g).
Proof.
  induction cs as [|c rest IH]; intros p g Hinv; [constructor|].
  destruct (run_cons c rest p g)
    as [[_ ->] | [(H0 & Hab & ->) | (H0 & r & p' & g' & acts & Hcall & ->)]].
  - constructor.
  - constructor; [|constructor].
    unfold step_sound, st_after, st_globals_after; cbn. auto 6.
  - destruct (callback_mqtt_step c p g r p' g' acts Hinv H0 Hcall)
      as [Hinv' Hshape].
    constructor; [|now apply IH].
    unfold step_sound, st_after, st_globals_after; cbn. auto 6.
Qed.

Lemma run_final_inv (cs : list call) :
  forall (p : pss) (g : globals),
    session_inv p g ->
    session_inv (fst (run_final (one_per_call cs) p g)) (snd (run_final (one_per_call cs) p g)).
Proof.
  induction cs as [|c rest IH]; intros p g Hinv; [exact Hinv|].
  destruct (run_final_cons c rest p g)
    as [[_ ->] | [(H0 & Hab & ->) | (H0 & r & p' & g' & acts & Hcall & ->)]];
    try exact Hinv.
  apply IH.
  now destruct (callback_mqtt_step c p g r p' g' acts Hinv H0 Hcall).
Qed.

(** A run holds at most [3 - retries] resend requests. *)
Lemma resend_steps_bounded (cs : list call) :
  forall (p : pss) (g : globals),
    session_inv p g ->
    Z.of_nat (List.length (resend_steps (run (one_per_call cs) p g)))
      <= 3 - retries p.
Proof.
  induction cs as [|c rest IH]; intros p g Hinv.
  - apply session_inv_retries in Hinv.
    cbn [one_per_call map run resend_steps filter List.length Z.of_nat]. lia.
  - assert (Hr : 0 <= retries p <= 3) by now apply session_inv_retries in Hinv.
    destruct (run_cons c rest p g)
      as [[_ ->] | [(H0 & Hab & ->) | (H0 & r & p' & g' & acts & Hcall & ->)]].
    + cbn [filter resend_steps List.length Z.of_nat]. lia.
    + apply aborted_is_rx in Hab as [Hrx _].
      unfold resend_steps, is_resend. cbn [filter st_call]. rewrite Hrx.
      cbn [List.length Z.of_nat]. lia.
    + destruct (callback_mqtt_step c p g r p' g' acts Hinv H0 Hcall)
        as [Hinv' Hshape].
      specialize (IH p' g' Hinv').
      unfold resend_steps in *. cbn [filter st_call].
      destruct (step_shape_arith _ _ _ _ _ Hshape)
        as [(-> & Hs & _) | (-> & Hs & _)];
        cbn [List.length]; lia.
Qed.

(** A run moves the state back at most [2 - retries] times. *)
Lemma rewinds_bounded (cs : list call) :
  forall (p : pss) (g : globals),
    session_inv p g ->
    Z.of_nat (List.length (filter rewinds (run (one_per_call cs) p g)))
      <= Z.max 0 (2 - retries p).
Proof.
  induction cs as [|c rest IH]; intros p g Hinv.
  - cbn [one_per_call map run filter List.length Z.of_nat]. lia.
  - destruct (run_cons c rest p g)
      as [[_ ->] | [(H0 & Hab & ->) | (H0 & r & p' & g' & acts & Hcall & ->)]].
    + cbn [filter resend_steps List.length Z.of_nat]. lia.
    + cbn [filter]. unfold rewinds, st_after. cbn [st_out st_pss].
      rewrite Z.ltb_irrefl. cbn [List.length Z.of_nat]. lia.
    + destruct (callback_mqtt_step c p g r p' g' acts Hinv H0 Hcall)
        as [Hinv' Hshape].
      specialize (IH p' g' Hinv').
      assert (Hr : 0 <= retries p <= 3) by now apply session_inv_retries in Hinv.
      cbn [filter]. unfold rewinds at 1, st_after. cbn [st_out st_pss].
      destruct (Z.ltb_spec (state p') (state p)) as [Hlt | Hge];
        destruct (step_shape_arith _ _ _ _ _ Hshape)
          as [(_ & Hs & Hcase) | (_ & Hs & Hcase)];
        cbn [List.length]; lia.
Qed.

Lemma bad_before_step (s : step) : step_sound s -> bad (st_globals s) = 1.
Proof.
  intros ((_ & Hb & _ & _ & Hlive & Hbad & _) & H0 & _).
  destruct (Hlive H0) as [_ Hs].
  destruct Hb as [Hb | Hb]; [apply Hbad in Hb; lia | exact Hb].
Qed.

(** A step that stopped at the assertion is a received-message callback
    and left the session where it was. *)
Lemma aborted_step (s : step) :
  step_sound s -> st_out s = Aborted ->
  reason (st_call s) = LWS_CALLBACK_MQTT_CLIENT_RX /\
  st_after s = st_pss s /\ st_globals_after s = st_globals s.
Proof.
  intros (_ & _ & Hout & _) Hab. unfold st_after, st_globals_after.
  rewrite Hab in Hout |- *. symmetry in Hout.
  apply aborted_is_rx in Hout as [Hrx _]. auto.
Qed.

Lemma step_sound_retries (s : step) :
  step_sound s ->
  0 <= retries (st_pss s) < 3 /\
  0 <= retries (st_after s) <= 3 /\
  (retries (st_after s) = 3 ->
   rewinds s = false /\
   interrupted (st_globals_after s) = 1 /\
   bad (st_globals_after s) = 1).
Proof.
  intros Hs. pose proof Hs as (Hinv & H0 & Hout & Hinv' & Hshape).
  pose proof (session_inv_retries _ _ Hinv) as Hr.
  pose proof (session_inv_retries _ _ Hinv') as Hr'.
  assert (Hlt : retries (st_pss s) < 3).
  { destruct Hinv as (_ & _ & _ & _ & Hlive & _). now apply Hlive. }
  repeat split; try lia.
  - unfold rewinds. apply Z.ltb_ge.
    destruct Hshape as [Hab | Hsh].
    + destruct (aborted_step s Hs Hab) as (_ & -> & _). lia.
    + apply step_shape_arith in Hsh. lia.
  - destruct Hinv' as (_ & _ & _ & _ & _ & _ & Hex). now apply Hex.
  - destruct Hinv' as (_ & _ & _ & _ & _ & _ & Hex). now apply Hex.
Qed.

Lemma step_sound_monotone (s : step) :
  step_sound s ->
  (is_resend (st_call s) = false ->
   state (st_pss s) <= state (st_after s) <= state (st_pss s) + 1) /\
  (is_resend (st_call s) = true ->
   (state (st_after s) = state (st_pss s) - 1 /\ retries (st_after s) < 3) \/
   (state (st_after s) = state (st_pss s) /\ retries (st_after s) = 3)) /\
  (resend_awaited s = true -> forward_or_ack1_resend s = true).
Proof.
  intros Hs. pose proof Hs as (Hinv & H0 & Hout & Hinv' & Hshape).
  unfold resend_awaited, forward_or_ack1_resend.
  destruct Hshape as [Hab | Hsh].
  - destruct (aborted_step s Hs Hab) as (Hrx & -> & _).
    unfold is_resend. rewrite Hrx. rewrite Z.leb_refl.
    split; [intros _; lia | split; [discriminate | reflexivity]].
  - apply step_shape_arith in Hsh.
    destruct Hsh as [(-> & Hr & Hcase) | (-> & Hr & Hcase)].
    + split; [discriminate | split; [intros _; lia |]].
      cbn [negb orb andb]. intros Hw. apply Z.eqb_eq in Hw. rewrite Hw in *.
      rewrite Z.eqb_refl. cbn [andb].
      destruct Hcase as [[_ ->] | [_ ->]].
      * rewrite Z.leb_refl. reflexivity.
      * apply orb_true_r.
    + split; [intros _; lia | split; [discriminate |]].
      intros _. apply orb_true_iff. left. apply Z.leb_le. lia.
Qed.

Lemma step_sound_flags (s : step) :
  step_sound s ->
  (fatal s = true -> bad (st_globals_after s) = 1) /\
  (fatal s = true ->
   reason (st_call s) <> LWS_CALLBACK_MQTT_CLIENT_WRITEABLE ->
   interrupted (st_globals_after s) = 1) /\
  (bad (st_globals_after s) = 0 <->
   is_ack (st_call s) = true /\ state (st_pss s) = STATE_WAIT_ACK1).
Proof.
  intros Hs. pose proof (bad_before_step s Hs) as Hb.
  pose proof Hs as (Hinv & H0 & Hout & Hinv' & Hshape).
  destruct Hshape as [Hab | Hsh].
  - destruct (aborted_step s Hs Hab) as (Hrx & _ & ->).
    unfold fatal, is_ack. rewrite Hrx.
    repeat split; try discriminate; try lia; intros [? _]; discriminate.
  - unfold fatal, is_ack, step_shape in *.
    unfold STATE_WAIT_ACK1, STATE_TEST_FINISH, STATE_SUBSCRIBE,
      STATE_PUBLISH_QOS0, STATE_PUBLISH_QOS1 in *.
    generalize dependent (st_globals_after s). intros g'.
    generalize dependent (st_after s). intros p'.
    generalize dependent (st_globals s). intros g.
    generalize dependent (st_pss s). intros p.
    intros.
    destruct (reason (st_call s));
      repeat match goal with
             | H : _ /\ _ |- _ => destruct H
             | H : _ \/ _ |- _ => destruct H
             end;
      subst; cbn [bad interrupted];
      (split; [|split]);
      try (split; [intros ? | intros [? ?]]);
      try intros ?; try intros ?;
      try discriminate; try congruence; try lia;
      try (split; [reflexivity | lia]);
      match goal with
      | H : (_ =? _) = true |- _ => apply Z.eqb_eq in H; lia
      end.
Qed.


(** ** Runs under any schedule *)

Lemma wrap_int_range (z : Z) : int_min <= wrap_int z <= int_max.
Proof.
  unfold wrap_int, int_min, int_max.
  pose proof (Z.mod_pos_bound (z + 2 ^ 31) (2 ^ 32)). lia.
Qed.

Lemma wrap_int_succ_is (x v : Z) :
  int_min <= x <= int_max -> int_min < v ->
  wrap_int (x + 1) = v -> x + 1 = v.
Proof.
  intros Hx Hv H.
  destruct (Z.eq_dec x int_max) as [-> | Hne].
  - exfalso. revert H Hv. unfold wrap_int, int_min, int_max.
    change ((2 ^ 31 - 1 + 1 + 2 ^ 31) mod 2 ^ 32) with 0. lia.
  - rewrite wrap_int_small in H by (unfold int_min, int_max in *; lia).
    exact H.
Qed.

Lemma live_inv_init : live_inv pss_init globals_init.
Proof.
  unfold live_inv, int_min, int_max, STATE_TEST_FINISH; cbn. lia.
Qed.

Lemma live_session (p : pss) (g : globals) :
  live_inv p g -> interrupted g = 0 -> session_inv p g.
Proof.
  intros (Hi & Hb & Hbi & Hs & Hr & Hlive) H0.
  destruct (Hlive H0) as [Hr' Hs'].
  unfold session_inv. repeat split; try tauto; try lia.
Qed.

Lemma session_live (p : pss) (g : globals) :
  session_inv p g -> live_inv p g.
Proof.
  intros (Hi & Hb & Hr & Hs & Hlive & Hbad & Hex).
  unfold live_inv, int_min, int_max, STATE_TEST_FINISH in *.
  repeat split; try tauto; try lia.
Qed.

(** Every callback keeps [live_inv], whether [interrupted] is set or
    not. *)
Lemma callback_live_step (c : call) (p : pss) (g : globals)
      (r : Z) (p' : pss) (g' : globals) (acts : list action) :
  live_inv p g ->
  callback_mqtt c p g = Returned r p' g' acts ->
  live_inv p' g'.
Proof.
  intros Hinv Hcall.
  destruct (Z.eq_dec (interrupted g) 0) as [H0 | H1].
  - apply session_live.
    now destruct (callback_mqtt_step c p g r p' g' acts
                    (live_session p g Hinv H0) H0 Hcall).
  - destruct Hinv as (Hi & Hb & Hbi & Hs & Hr & _).
    assert (Hi1 : interrupted g = 1) by tauto.
    pose proof (wrap_int_range (state p + 1)).
    pose proof (wrap_int_range (state p - 1)).
    pose proof (wrap_int_range (retries p + 1)).
    unfold callback_mqtt, callback_mqtt_with, writeable in Hcall.
    destruct (reason c); split_ifs; try discriminate;
      injection Hcall as <- <- <- <-;
      unfold live_inv; cbn [state pos retries interrupted bad];
      repeat split; try tauto; try lia.
Qed.

Lemma dispatch_sound (cs : list call) :
  forall (p : pss) (g : globals),
    live_inv p g ->
    Forall sched_step (dispatch cs p g) /\
    live_inv (fst (snd (dispatch_final cs p g)))
             (snd (snd (dispatch_final cs p g))).
Proof.
  induction cs as [|c rest IH]; intros p g Hinv.
  - split; [constructor | exact Hinv].
  - cbn [dispatch dispatch_final].
    destruct (callback_mqtt c p g) as [|r p' g' acts] eqn:Hcall.
    + split; [|exact Hinv]. constructor; [|constructor].
      unfold sched_step, step_sound, st_after, st_globals_after.
      cbn [st_call st_pss st_globals st_out].
      split; [exact Hinv | split; [now symmetry | split; [exact Hinv|]]].
      intros H0. pose proof (live_session p g Hinv H0) as Hs.
      split; [exact Hs | split; [exact H0 | split; [now symmetry |]]].
      split; [exact Hs | now left].
    + pose proof (callback_live_step c p g r p' g' acts Hinv Hcall) as Hinv'.
      destruct (IH p' g' Hinv') as [IH1 IH2].
      split; [|exact IH2]. constructor; [|exact IH1].
      unfold sched_step, step_sound, st_after, st_globals_after.
      cbn [st_call st_pss st_globals st_out].
      split; [exact Hinv | split; [now symmetry | split; [exact Hinv'|]]].
      intros H0. pose proof (live_session p g Hinv H0) as Hs.
      destruct (callback_mqtt_step c p g r p' g' acts Hs H0 Hcall)
        as [Hs' Hshape].
      split; [exact Hs | split; [exact H0 | split; [now symmetry |]]].
      split; [exact Hs' | now right].
Qed.

Lemma dispatch_app (a b : list call) :
  forall (p : pss) (g : globals),
    dispatch (a ++ b) p g =
    dispatch a p g ++
    (let '(ok, (p', g')) := dispatch_final a p g in
     if ok then dispatch b p' g' else []).
Proof.
  induction a as [|c rest IH]; intros p g; [reflexivity|].
  cbn [app dispatch dispatch_final].
  destruct (callback_mqtt c p g) as [|r p' g' acts]; [reflexivity|].
  cbn [app]. f_equal. apply IH.
Qed.

Lemma dispatch_final_app (a b : list call) :
  forall (p : pss) (g : globals),
    dispatch_final (a ++ b) p g =
    (let '(ok, (p', g')) := dispatch_final a p g in
     if ok then dispatch_final b p' g' else (false, (p', g'))).
Proof.
  induction a as [|c rest IH]; intros p g; [reflexivity|].
  cbn [app dispatch_final].
  destruct (callback_mqtt c p g) as [|r p' g' acts]; [reflexivity|].
  apply IH.
Qed.

(** A run is the dispatch of the callbacks it got to: the test between
    two calls of [lws_service] decides how far the run goes, not what a
    callback does. *)
Lemma run_is_dispatch (bs : list (list call)) :
  forall (p : pss) (g : globals),
    exists cs : list call,
      run bs p g = dispatch cs p g /\
      run_final bs p g = snd (dispatch_final cs p g).
Proof.
  induction bs as [|b rest IH]; intros p g.
  - exists []. split; reflexivity.
  - cbn [run run_final]. destruct (interrupted g =? 0).
    + destruct (dispatch_final b p g) as [ok [p' g']] eqn:Hb.
      destruct ok.
      * destruct (IH p' g') as (cs & H1 & H2).
        exists (b ++ cs).
        rewrite dispatch_app, dispatch_final_app, Hb, H1, H2.
        split; reflexivity.
      * exists b. rewrite Hb, app_nil_r. split; reflexivity.
    + exists []. split; reflexivity.
Qed.

Lemma run_sched (bs : list (list call)) (p : pss) (g : globals) :
  live_inv p g ->
  Forall sched_step (run bs p g) /\
  live_inv (fst (run_final bs p g)) (snd (run_final bs p g)).
Proof.
  intros Hinv. destruct (run_is_dispatch bs p g) as (cs & -> & ->).
  now apply dispatch_sound.
Qed.

(** With one callback per call every step is taken with [interrupted]
    clear. *)
Lemma one_per_call_live (cs : list call) :
  forall (p : pss) (g : globals),
    Forall (fun s => interrupted (st_globals s) = 0)
           (run (one_per_call cs) p g).
Proof.
  induction cs as [|c rest IH]; intros p g; [constructor|].
  destruct (run_cons c rest p g)
    as [[_ ->] | [(H0 & Hab & ->) | (H0 & r & p' & g' & acts & Hcall & ->)]].
  - constructor.
  - constructor; [exact H0 | constructor].
  - constructor; [exact H0 | apply IH].
Qed.

(** How the state moves on a callback that finds the two [int] fields
    where the increment and the decrement are defined. *)
Lemma callback_state_moves (c : call) (p : pss) (g : globals)
      (r : Z) (p' : pss) (g' : globals) (acts : list action) :
  int_min < state p < int_max -> int_min <= retries p < int_max ->
  callback_mqtt c p g = Returned r p' g' acts ->
  (is_resend c = false -> state p <= state p' <= state p + 1) /\
  (is_resend c = true ->
   (state p' = state p - 1 /\ retries p' <> 3) \/
   (state p' = state p /\ retries p' = 3)).
Proof.
  intros Hs Hr Hcall.
  assert (Hw1 : wrap_int (state p + 1) = state p + 1)
    by (apply wrap_int_small; lia).
  assert (Hw2 : wrap_int (state p - 1) = state p - 1)
    by (apply wrap_int_small; lia).
  unfold callback_mqtt, callback_mqtt_with, writeable, is_resend in *.
  destruct (reason c); split_ifs; try discriminate;
    injection Hcall as <- <- <- <-;
    cbn [state retries]; rewrite ?Hw1, ?Hw2;
    (split; [intros H; try discriminate H; lia
           | intros H; try discriminate H]).
  - right. split; [reflexivity | now apply Z.eqb_eq].
  - left. split; [reflexivity | now apply Z.eqb_neq].
Qed.

(** ** Claims about whole runs *)

(** A callback that stopped at the assertion is a received-message
    callback and no step of any other kind. *)
Lemma sched_aborted (s : step) :
  sched_step s -> st_out s = Aborted ->
  reason (st_call s) = LWS_CALLBACK_MQTT_CLIENT_RX /\
  st_after s = st_pss s /\ st_globals_after s = st_globals s.
Proof.
  intros (_ & Hout & _) Hab. unfold st_after, st_globals_after.
  rewrite Hab in Hout |- *. symmetry in Hout.
  apply aborted_is_rx in Hout as [Hrx _]. auto.
Qed.

Lemma sched_step_moves (s : step) :
  sched_step s -> step_in_range s ->
  (is_resend (st_call s) = false ->
   state (st_pss s) <= state (st_after s) <= state (st_pss s) + 1) /\
  (is_resend (st_call s) = true ->
   (state (st_after s) = state (st_pss s) - 1 /\ retries (st_after s) <> 3) \/
   (state (st_after s) = state (st_pss s) /\ retries (st_after s) = 3)).
Proof.
  intros Hs [Hst Hre]. pose proof Hs as (_ & Hout & _).
  destruct (st_out s) as [|r p' g' acts] eqn:Ho.
  - destruct (sched_aborted s Hs Ho) as (Hrx & -> & _).
    unfold is_resend. rewrite Hrx. split; [intros _; lia | discriminate].
  - unfold st_after. rewrite Ho. symmetry in Hout.
    exact (callback_state_moves _ _ _ _ _ _ _ Hst Hre Hout).
Qed.

Lemma sched_step_forward (s : step) :
  sched_step s ->
  interrupted (st_globals s) = 0 \/ step_in_range s ->
  resend_awaited s = true -> forward_or_ack1_resend s = true.
Proof.
  intros Hs [H0 | Hin] Haw.
  - destruct Hs as (_ & _ & _ & Hlive).
    now destruct (step_sound_monotone s (Hlive H0)) as (_ & _ & H3); auto.
  - destruct (sched_step_moves s Hs Hin) as [Hf Hb].
    unfold resend_awaited, forward_or_ack1_resend in *.
    destruct (is_resend (st_call s)); cbn [negb orb andb] in *.
    + apply Z.eqb_eq in Haw. rewrite Haw in *. rewrite Z.eqb_refl.
      cbn [andb].
      destruct (Hb eq_refl) as [[-> _] | [-> _]];
        [apply orb_true_r | now rewrite Z.leb_refl].
    + apply orb_true_iff. left. apply Z.leb_le. now apply Hf.
Qed.

(** C3, as stated, fails.  The test for exhaustion is an equality and
    [interrupted] is tested between two calls of [lws_service] only: a
    resend request dispatched in the same call as the third one takes the
    counter to 4 and rewinds once more, and an acknowledgement dispatched
    in the same call clears [bad]. *)
Lemma retries_pass_the_ceiling :
  run_final (one_per_call before_third_resend ++ [[resend; resend]])
            pss_init globals_init =
    (mk_pss STATE_PUBLISH_QOS1 0 4, mk_globals 1 1) /\
  run_final (one_per_call before_third_resend ++ [[resend; ack]])
            pss_init globals_init =
    (mk_pss STATE_TEST_FINISH 0 3, mk_globals 1 0).
Proof. split; vm_compute; reflexivity. Qed.

(** C3, amended.  The retry counter starts at 0.  The resend path
    increments it and only then compares it with 3; when the comparison
    succeeds the callback sets [interrupted], writes neither [bad] nor
    state nor cursor, and does not rewind.  Under every schedule, a
    callback dispatched while [interrupted] is clear finds the counter
    below 3 and leaves it at most 3, and the one that brings it to 3 does
    not rewind and leaves [interrupted = 1] and [bad = 1]; as long as the
    loop goes on the counter is below 3.  When every call of
    [lws_service] dispatches one callback, the counter stays within
    [[0, 3]] for the whole run, which holds at most three resend requests
    and moves the state back at most twice.  Nothing is said of callbacks
    dispatched after [interrupted] was set. *)
Theorem retry_counter_bounded :
  retries pss_init = 0 /\
  (forall (n : bool) (rc : Z) (p : pss) (g : globals),
     exists (p' : pss) (g' : globals),
       callback_mqtt (mk_call LWS_CALLBACK_MQTT_RESEND n rc) p g =
         Returned 0 p' g' [] /\
       retries p' = wrap_int (retries p + 1) /\
       (retries p' = 3 ->
        state p' = state p /\ pos p' = pos p /\ g' = mk_globals 1 (bad g))) /\
  (forall bs : list (list call),
     Forall (fun s =>
               interrupted (st_globals s) = 0 ->
               0 <= retries (st_pss s) < 3 /\
               0 <= retries (st_after s) <= 3 /\
               (retries (st_after s) = 3 ->
                rewinds s = false /\
                interrupted (st_globals_after s) = 1 /\
                bad (st_globals_after s) = 1))
            (run bs pss_init globals_init) /\
     (interrupted (snd (run_final bs pss_init globals_init)) = 0 ->
      0 <= retries (fst (run_final bs pss_init globals_init)) < 3)) /\
  (forall cs : list call,
     Forall (fun s =>
               0 <= retries (st_pss s) < 3 /\
               0 <= retries (st_after s) <= 3 /\
               (retries (st_after s) = 3 ->
                rewinds s = false /\
                interrupted (st_globals_after s) = 1 /\
                bad (st_globals_after s) = 1))
            (run (one_per_call cs) pss_init globals_init) /\
     (List.length (resend_steps (run (one_per_call cs) pss_init globals_init))
        <= 3)%nat /\
     (List.length (filter rewinds (run (one_per_call cs) pss_init globals_init))
        <= 2)%nat /\
     0 <= retries (fst (run_final (one_per_call cs) pss_init globals_init)) <= 3 /\
     (retries (fst (run_final (one_per_call cs) pss_init globals_init)) = 3 ->
      interrupted (snd (run_final (one_per_call cs) pss_init globals_init)) = 1 /\
      bad (snd (run_final (one_per_call cs) pss_init globals_init)) = 1)).
Proof.
  split; [reflexivity | split; [|split]].
  - intros n rc p g. unfold callback_mqtt, callback_mqtt_with.
    cbn [reason].
    destruct (Z.eqb_spec (wrap_int (retries p + 1)) 3) as [E | E];
      do 2 eexists; (split; [reflexivity|]); cbn [retries state pos];
      split; auto; intros E'; congruence.
  - intros bs.
    destruct (run_sched bs _ _ live_inv_init) as [Hrun Hfin].
    split.
    + eapply Forall_impl; [|exact Hrun].
      intros s (_ & _ & _ & Hlive) H0. exact (step_sound_retries s (Hlive H0)).
    + intros H0. destruct Hfin as (_ & _ & _ & _ & _ & Hlive).
      now destruct (Hlive H0).
  - intros cs.
    pose proof (run_sound cs _ _ session_inv_init) as Hrun.
    pose proof (resend_steps_bounded cs _ _ session_inv_init) as Hres.
    pose proof (rewinds_bounded cs _ _ session_inv_init) as Hrew.
    pose proof (run_final_inv cs _ _ session_inv_init) as Hfin.
    cbn [retries pss_init] in Hres, Hrew.
    repeat split; try lia.
    + eapply Forall_impl; [|exact Hrun]. exact step_sound_retries.
    + apply (session_inv_retries _ _ Hfin).
    + apply (session_inv_retries _ _ Hfin).
    + destruct Hfin as (_ & _ & _ & _ & _ & _ & Hex). now apply Hex.
    + destruct Hfin as (_ & _ & _ & _ & _ & _ & Hex). now apply Hex.
Qed.

Lemma retry_counter_bounded_witness :
  exists (p' : pss) (g' : globals),
    callback_mqtt (mk_call LWS_CALLBACK_MQTT_RESEND true 0)
      (mk_pss STATE_WAIT_ACK1 0 2) globals_init = Returned 0 p' g' [] /\
    retries p' = wrap_int (2 + 1) /\
    (retries p' = 3 ->
     state p' = STATE_WAIT_ACK1 /\ pos p' = 0 /\ g' = mk_globals 1 1).
Proof.
  exact (proj1 (proj2 retry_counter_bounded) true 0
           (mk_pss STATE_WAIT_ACK1 0 2) globals_init).
Defined.

(** The callback alone, invoked again after the third request, rewinds
    once more. *)
Example resend_after_exhaustion :
  callback_mqtt resend (mk_pss STATE_WAIT_ACK1 0 3) (mk_globals 1 1) =
  Returned 0 (mk_pss STATE_PUBLISH_QOS1 0 4) (mk_globals 1 1) [].
Proof. reflexivity. Qed.

(** A connection error or a closure ends the run with [bad] still set. *)
Example connection_error_ends_run :
  run_final (one_per_call [connection_error; writable_ok])
            pss_init globals_init =
    (pss_init, mk_globals 1 1) /\
  run_final (one_per_call [writable_ok; closed; ack]) pss_init globals_init =
    (mk_pss STATE_PUBLISH_QOS0 0 0, mk_globals 1 1).
Proof. split; reflexivity. Qed.

(** C2, as stated, fails: a resend request delivered in
    [STATE_PUBLISH_QOS0] takes the session back to [STATE_SUBSCRIBE]. *)
Lemma backward_edge_outside_wait_ack1 :
  run (one_per_call [writable_ok; resend]) pss_init globals_init =
    [ mk_step writable_ok pss_init globals_init
        (Returned 0 (mk_pss STATE_PUBLISH_QOS0 0 0) globals_init
           [lws_mqtt_client_send_subcribe sub_param]);
      mk_step resend (mk_pss STATE_PUBLISH_QOS0 0 0) globals_init
        (Returned 0 (mk_pss STATE_SUBSCRIBE 0 1) globals_init []) ] /\
  forallb forward_or_ack1_resend
    (run (one_per_call [writable_ok; resend]) pss_init globals_init) = false.
Proof. split; reflexivity. Qed.

(** C2, amended.  In every run from the initial session a callback other
    than a resend request leaves the state or advances it by one; a resend
    request moves the state back by exactly one, from whatever state it
    finds, unless it is the one that brings the retry counter to 3, which
    leaves the state.  Hence, in a run whose resend requests all arrive in
    [STATE_WAIT_ACK1], every transition is forward or is the edge from
    [STATE_WAIT_ACK1] back to [STATE_PUBLISH_QOS1].

    This is first stated for the runs in which every call of
    [lws_service] dispatches one callback, then for every schedule:
    there it holds of the steps taken while [interrupted] is clear, and
    of every other step that finds the two [int] fields away from the
    ends of their type. *)
Theorem state_moves_back_only_on_resend
        (cs : list call) (bs : list (list call)) :
  Forall (fun s =>
            (is_resend (st_call s) = false ->
             state (st_pss s) <= state (st_after s) <= state (st_pss s) + 1) /\
            (is_resend (st_call s) = true ->
             (state (st_after s) = state (st_pss s) - 1 /\
              retries (st_after s) < 3) \/
             (state (st_after s) = state (st_pss s) /\
              retries (st_after s) = 3)))
         (run (one_per_call cs) pss_init globals_init) /\
  (forallb resend_awaited (run (one_per_call cs) pss_init globals_init) = true ->
   forallb forward_or_ack1_resend
     (run (one_per_call cs) pss_init globals_init) = true) /\
  Forall (fun s =>
            interrupted (st_globals s) = 0 ->
            (is_resend (st_call s) = false ->
             state (st_pss s) <= state (st_after s) <= state (st_pss s) + 1) /\
            (is_resend (st_call s) = true ->
             (state (st_after s) = state (st_pss s) - 1 /\
              retries (st_after s) < 3) \/
             (state (st_after s) = state (st_pss s) /\
              retries (st_after s) = 3)))
         (run bs pss_init globals_init) /\
  Forall (fun s =>
            step_in_range s ->
            (is_resend (st_call s) = false ->
             state (st_pss s) <= state (st_after s) <= state (st_pss s) + 1) /\
            (is_resend (st_call s) = true ->
             (state (st_after s) = state (st_pss s) - 1 /\
              retries (st_after s) <> 3) \/
             (state (st_after s) = state (st_pss s) /\
              retries (st_after s) = 3)))
         (run bs pss_init globals_init) /\
  (forallb resend_awaited (run bs pss_init globals_init) = true ->
   Forall (fun s =>
             interrupted (st_globals s) = 0 \/ step_in_range s ->
             forward_or_ack1_resend s = true)
          (run bs pss_init globals_init)).
Proof.
  pose proof (run_sound cs _ _ session_inv_init) as Hrun.
  destruct (run_sched bs _ _ live_inv_init) as [Hsched _].
  split; [|split; [|split; [|split]]].
  - eapply Forall_impl; [|exact Hrun].
    intros s Hs. destruct (step_sound_monotone s Hs) as (H1 & H2 & _). auto.
  - intros Haw. rewrite forallb_forall in *. intros s Hin.
    rewrite Forall_forall in Hrun.
    destruct (step_sound_monotone s (Hrun s Hin)) as (_ & _ & H3). auto.
  - eapply Forall_impl; [|exact Hsched].
    intros s (_ & _ & _ & Hlive) H0.
    destruct (step_sound_monotone s (Hlive H0)) as (H1 & H2 & _). auto.
  - eapply Forall_impl; [|exact Hsched].
    intros s Hs Hin. exact (sched_step_moves s Hs Hin).
  - intros Haw. rewrite forallb_forall in Haw.
    rewrite Forall_forall in *. intros s Hin Hc.
    exact (sched_step_forward s (Hsched s Hin) Hc (Haw s Hin)).
Qed.

Lemma state_moves_back_only_on_resend_witness :
  forallb resend_awaited
    (run (one_per_call scenario_C) pss_init globals_init) = true /\
  forallb forward_or_ack1_resend
    (run (one_per_call scenario_C) pss_init globals_init) = true.
Proof.
  assert (H : forallb resend_awaited
                (run (one_per_call scenario_C) pss_init globals_init) = true)
    by (vm_compute; reflexivity).
  split; [exact H|].
  exact (proj1 (proj2 (state_moves_back_only_on_resend scenario_C [])) H).
Defined.

(** *** The failed flag *)

Lemma milestone_eqb_refl (m : milestone) : milestone_eqb m m = true.
Proof. now destruct m. Qed.

Lemma subseq_nil (m : list milestone) : subseq [] m = true.
Proof. now destruct m. Qed.

Lemma subseq_tail (x : milestone) (l m : list milestone) :
  subseq (x :: l) m = true -> subseq l m = true.
Proof.
  revert x l. induction m as [|y m IH]; intros x l H; [discriminate|].
  cbn [subseq] in H. destruct l as [|z l]; [reflexivity|].
  cbn [subseq]. destruct (milestone_eqb x y).
  - destruct (milestone_eqb z y); [now apply IH with z | exact H].
  - destruct (milestone_eqb z y); [|now apply IH with x].
    apply IH with z. now apply IH with x.
Qed.

Lemma subseq_skip (y : milestone) (l m : list milestone) :
  subseq l m = true -> subseq l (y :: m) = true.
Proof.
  intros H. destruct l as [|x l]; [reflexivity|].
  cbn [subseq]. destruct (milestone_eqb x y); [|exact H].
  now apply subseq_tail with x.
Qed.

Lemma subseq_skip_opt (o : option milestone) (l m : list milestone) :
  subseq l m = true ->
  subseq l (match o with Some y => [y] | None => [] end ++ m) = true.
Proof. destruct o; [apply subseq_skip | auto]. Qed.

Lemma subseq_match (x : milestone) (l m : list milestone) :
  subseq l m = true -> subseq (x :: l) (x :: m) = true.
Proof. intros H. cbn [subseq]. now rewrite milestone_eqb_refl. Qed.

(** The milestones ahead of a state are among those ahead of the state
    before it. *)
Lemma remaining_pred (st : Z) (m : list milestone) :
  st <= STATE_TEST_FINISH ->
  subseq (remaining (st - 1)) m = true -> subseq (remaining st) m = true.
Proof.
  unfold STATE_TEST_FINISH. intros Hst H.
  assert (Hc : st <= 0 \/ st = 1 \/ st = 2 \/ st = 3 \/ st = 4 \/ st = 5)
    by lia.
  destruct Hc as [Hc | [-> | [-> | [-> | [-> | ->]]]]].
  - unfold remaining, STATE_SUBSCRIBE in *.
    replace (st - 1 <=? 0) with true in H by (symmetry; apply Z.leb_le; lia).
    replace (st <=? 0) with true by (symmetry; apply Z.leb_le; lia).
    exact H.
  - exact (subseq_tail _ _ _ H).
  - exact (subseq_tail _ _ _ H).
  - exact (subseq_tail _ _ _ H).
  - exact (subseq_tail _ _ _ H).
  - apply subseq_nil.
Qed.

Lemma sched_step_flags (s : step) :
  sched_step s ->
  (interrupted (st_globals s) = 0 -> bad (st_globals s) = 1) /\
  (fatal s = true -> bad (st_globals_after s) = bad (st_globals s)) /\
  (fatal s = true ->
   reason (st_call s) <> LWS_CALLBACK_MQTT_CLIENT_WRITEABLE ->
   interrupted (st_globals_after s) = 1) /\
  (bad (st_globals_after s) = 0 <->
   bad (st_globals s) = 0 \/ finishing s = true).
Proof.
  intros Hs. pose proof Hs as ((Hi & Hb & Hbi & Hst & _) & Hout & _).
  split; [intros H0; destruct Hb as [Hb | Hb]; [apply Hbi in Hb; lia | exact Hb]|].
  destruct (st_out s) as [|r p' g' acts] eqn:Ho.
  - destruct (sched_aborted s Hs Ho) as (Hrx & _ & ->).
    unfold fatal, finishing, is_ack. rewrite Hrx. cbn [andb].
    repeat split; try discriminate; try tauto.
    intros [H | H]; [exact H | discriminate].
  - unfold fatal, finishing, is_ack.
    unfold st_globals_after, st_after, st_ret.
    rewrite Ho. symmetry in Hout.
    assert (Hw : wrap_int (state (st_pss s) + 1) = STATE_TEST_FINISH <->
                 state (st_pss s) = STATE_WAIT_ACK1).
    { unfold STATE_TEST_FINISH, STATE_WAIT_ACK1. split; intros H.
      - apply wrap_int_succ_is in H; [lia | exact Hst | unfold int_min; lia].
      - rewrite H. reflexivity. }
    generalize dependent (st_globals s). intros g.
    generalize dependent (st_pss s). intros p.
    generalize dependent (st_call s). intros c.
    intros.
    unfold callback_mqtt, callback_mqtt_with, writeable in Hout.
    destruct (reason c); split_ifs; try discriminate;
      injection Hout as <- <- <- <-;
      cbn [state pos retries interrupted bad andb negb] in *;
      repeat match goal with
             | H : negb _ = _ |- _ =>
                 rewrite ?negb_true_iff, ?negb_false_iff in H
             | H : (_ =? _) = true |- _ => apply Z.eqb_eq in H
             | H : (_ =? _) = false |- _ => apply Z.eqb_neq in H
             end;
      (split; [|split; [|split]]);
      try (intros; congruence); try (intros; reflexivity);
      try (intros [? | ?]; first [assumption | discriminate]);
      try (left; assumption);
      try tauto.
    all: try (intros H; apply Z.eqb_eq in H; congruence).
    all: try (intros _; right; apply Z.eqb_eq; tauto).
    all: try (intros H; left; exact H).
    all: try (intros [H | H]; [exact H | apply Z.eqb_eq in H; tauto]).
Qed.

Lemma head_sched (c : call) (p : pss) (g : globals) :
  live_inv p g -> sched_step (mk_step c p g (callback_mqtt c p g)).
Proof.
  intros Hinv. destruct (dispatch_sound [c] p g Hinv) as [H _].
  cbn [dispatch] in H.
  destruct (callback_mqtt c p g); now inversion H.
Qed.

(** [bad] is clear at the end of a batch exactly if it was clear before
    or one of the callbacks was the finishing acknowledgement. *)
Lemma dispatch_bad (cs : list call) :
  forall (p : pss) (g : globals),
    live_inv p g ->
    (bad (snd (snd (dispatch_final cs p g))) = 0 <->
     bad g = 0 \/ existsb finishing (dispatch cs p g) = true).
Proof.
  induction cs as [|c rest IH]; intros p g Hinv.
  - cbn. split; [auto | intros [H | H]; [exact H | discriminate]].
  - pose proof (head_sched c p g Hinv) as Hs.
    destruct (sched_step_flags _ Hs) as (_ & _ & _ & Hbad).
    cbn [dispatch dispatch_final].
    destruct (callback_mqtt c p g) as [|r p' g' acts] eqn:Hcall.
    + cbn [snd existsb]. unfold st_globals_after in Hbad.
      cbn [st_out st_globals] in Hbad. rewrite orb_false_r. exact Hbad.
    + cbn [existsb]. rewrite orb_true_iff.
      unfold st_globals_after in Hbad. cbn [st_out st_globals] in Hbad.
      rewrite (IH p' g' (callback_live_step c p g r p' g' acts Hinv Hcall)).
      tauto.
Qed.

(** One callback on the way through the legitimate sequence: the state
    stays, goes back by one, or advances by one past the milestone that
    was next. *)
Lemma milestone_step (c : call) (p : pss) (g : globals)
      (r : Z) (p' : pss) (g' : globals) (acts : list action) :
  callback_mqtt c p g = Returned r p' g' acts ->
  int_min <= state p <= STATE_TEST_FINISH ->
  ack_solicited (mk_step c p g (Returned r p' g' acts)) = true ->
  resend_defined (mk_step c p g (Returned r p' g' acts)) = true ->
  int_min <= state p' <= STATE_TEST_FINISH /\
  (state p' = state p \/ state p' = state p - 1 \/
   exists m : milestone,
     milestone_of (mk_step c p g (Returned r p' g' acts)) = Some m /\
     remaining (state p) = m :: remaining (state p')).
Proof.
  unfold ack_solicited, resend_defined, milestone_of, is_ack, is_resend,
    STATE_TEST_FINISH.
  cbn [st_call st_pss st_out].
  destruct p as [ps pp pr]. destruct c as [rs n rc].
  cbn [state pos retries reason send_rc].
  unfold callback_mqtt, callback_mqtt_with, writeable.
  cbn [state pos retries reason send_rc in_null].
  intros Hcall Hs Hack Hre.
  assert (Hint : int_min <= 0) by (unfold int_min; lia).
  destruct rs; cbn [negb orb] in Hack, Hre.
  1-4, 8-9: split_ifs; try discriminate; injection Hcall as <- <- <- <-;
    cbn [state]; split; auto.
  - (* WRITEABLE *)
    unfold STATE_SUBSCRIBE, STATE_PUBLISH_QOS0, STATE_PUBLISH_QOS1 in *.
    destruct (Z.eqb_spec ps 0) as [-> | H0].
    { destruct (rc =? 0) eqn:Hrc; injection Hcall as <- <- <- <-;
        cbn [state]; [|split; auto].
      rewrite !wrap_int_small by (unfold int_min, int_max; lia).
      split; [lia|]. right; right. exists SubscribeAccepted.
      split; reflexivity. }
    destruct (Z.eqb_spec ps 1) as [-> | H1].
    { cbn [orb] in Hcall.
      unfold is_final_chunk in *.
      destruct (rc =? 0) eqn:Hrc;
        [destruct (_ =? _) eqn:Hfin in Hcall |];
        injection Hcall as <- <- <- <-; cbn [state]; try (split; auto; lia).
      rewrite !wrap_int_small by (unfold int_min, int_max; lia).
      split; [lia|]. right; right. exists Qos0Complete.
      cbn [Z.eqb Pos.eqb andb sent_final existsb orb]. try rewrite Hfin.
      split; reflexivity. }
    destruct (Z.eqb_spec ps 3) as [-> | H3].
    { cbn [orb] in Hcall.
      unfold is_final_chunk in *.
      destruct (rc =? 0) eqn:Hrc;
        [destruct (_ =? _) eqn:Hfin in Hcall |];
        injection Hcall as <- <- <- <-; cbn [state]; try (split; auto; lia).
      rewrite !wrap_int_small by (unfold int_min, int_max; lia).
      split; [lia|]. right; right. exists Qos1Complete.
      cbn [Z.eqb Pos.eqb andb sent_final existsb orb]. try rewrite Hfin.
      split; reflexivity. }
    cbn [orb] in Hcall. injection Hcall as <- <- <- <-. cbn [state].
    split; auto.
  - (* ACK *)
    unfold STATE_WAIT_ACK0, STATE_WAIT_ACK1 in *.
    apply orb_true_iff in Hack as [Hack | Hack]; apply Z.eqb_eq in Hack;
      subst ps; cbn [state Z.eqb Pos.eqb negb] in Hcall |- *.
    + rewrite !wrap_int_small in Hcall by (unfold int_min, int_max; lia).
      cbn [state Z.eqb Pos.eqb negb] in Hcall.
      injection Hcall as <- <- <- <-. cbn [state].
      split; [lia|]. right; right. exists Ack0. split; reflexivity.
    + rewrite !wrap_int_small in Hcall by (unfold int_min, int_max; lia).
      cbn [state Z.eqb Pos.eqb negb] in Hcall.
      injection Hcall as <- <- <- <-. cbn [state].
      split; [lia|]. right; right. exists Ack1. split; reflexivity.
  - (* RESEND *)
    apply Z.ltb_lt in Hre.
    assert (Hw : wrap_int (ps - 1) = ps - 1)
      by (apply wrap_int_small; unfold int_min, int_max in *; lia).
    rewrite Hw in Hcall.
    destruct (_ =? 3); injection Hcall as <- <- <- <-; cbn [state];
      split; auto; lia.
Qed.

(** With every acknowledgement solicited and every [state--] defined, a
    trace that holds the finishing acknowledgement holds all the
    milestones that were still ahead of its first state, in order. *)
Lemma full_sequence_needed (cs : list call) :
  forall (p : pss) (g : globals),
    int_min <= state p <= STATE_TEST_FINISH ->
    forallb ack_solicited (dispatch cs p g) = true ->
    forallb resend_defined (dispatch cs p g) = true ->
    existsb finishing (dispatch cs p g) = true ->
    subseq (remaining (state p)) (milestones (dispatch cs p g)) = true.
Proof.
  induction cs as [|c rest IH]; intros p g Hs Hack Hre Hfin;
    [discriminate|].
  cbn [dispatch] in *.
  destruct (callback_mqtt c p g) as [|r p' g' acts] eqn:Hcall.
  - exfalso. apply aborted_is_rx in Hcall as [Hrx _].
    cbn [existsb] in Hfin. unfold finishing, is_ack in Hfin.
    cbn [st_call] in Hfin. rewrite Hrx in Hfin. discriminate.
  - cbn [forallb existsb] in *.
    apply andb_true_iff in Hack as [Hack1 Hack2].
    apply andb_true_iff in Hre as [Hre1 Hre2].
    destruct (milestone_step c p g r p' g' acts Hcall Hs Hack1 Hre1)
      as [Hs' Hmove].
    set (s := mk_step c p g (Returned r p' g' acts)) in *.
    change (milestones (s :: dispatch rest p' g'))
      with (match milestone_of s with Some y => [y] | None => [] end
            ++ milestones (dispatch rest p' g')).
    apply orb_true_iff in Hfin as [Hnow | Hlater].
    + (* this step is the finishing acknowledgement *)
      unfold finishing in Hnow. apply andb_true_iff in Hnow as [Hisack Hst].
      apply Z.eqb_eq in Hst. subst s. cbn [st_call st_pss] in *.
      destruct Hmove as [Hm | [Hm | (m & Hm & Hrem)]].
      * exfalso.
        assert (Hw : wrap_int (state p + 1) = state p + 1)
          by (apply wrap_int_small; rewrite Hst;
              unfold int_min, int_max, STATE_WAIT_ACK1; lia).
        unfold is_ack in Hisack.
        unfold callback_mqtt, callback_mqtt_with in Hcall.
        destruct (reason c); try discriminate.
        rewrite Hw in Hcall.
        destruct (negb _); injection Hcall as <- <- <- <-;
          cbn [state] in Hm; lia.
      * exfalso.
        assert (Hw : wrap_int (state p + 1) = state p + 1)
          by (apply wrap_int_small; rewrite Hst;
              unfold int_min, int_max, STATE_WAIT_ACK1; lia).
        unfold is_ack in Hisack.
        unfold callback_mqtt, callback_mqtt_with in Hcall.
        destruct (reason c); try discriminate.
        rewrite Hw in Hcall.
        destruct (negb _); injection Hcall as <- <- <- <-;
          cbn [state] in Hm; lia.
      * rewrite Hm, Hrem. cbn [app]. apply subseq_match.
        assert (Hn : remaining (state p') = []).
        { rewrite Hst in Hrem. cbn in Hrem. now injection Hrem. }
        rewrite Hn. apply subseq_nil.
    + specialize (IH p' g' Hs' Hack2 Hre2 Hlater).
      destruct Hmove as [Hm | [Hm | (m & Hm & Hrem)]].
      * rewrite <- Hm. now apply subseq_skip_opt.
      * apply subseq_skip_opt. apply remaining_pred; [lia|].
        now rewrite <- Hm.
      * rewrite Hm, Hrem. cbn [app]. now apply subseq_match.
Qed.

(** C5, as stated, fails twice over.  Five ACK callbacks from the initial
    session clear [bad] although nothing was ever subscribed or published;
    and a failed send leaves [interrupted] at 0 when the callback
    returns. *)
Lemma failed_flag_cleared_without_publishing :
  run_final (one_per_call (repeat ack 5)) pss_init globals_init =
    (mk_pss STATE_TEST_FINISH 0 0, mk_globals 1 0) /\
  actions_of (run (one_per_call (repeat ack 5)) pss_init globals_init) =
    [lws_get_context; lws_cancel_service] /\
  callback_mqtt (writable_fail 1) pss_init globals_init =
    Returned (-1) pss_init (mk_globals 0 1)
      [lws_mqtt_client_send_subcribe sub_param].
Proof. repeat split; reflexivity. Qed.

(** C5, amended.  [bad] is 1 at start.  A connection error, a closure and
    the resend request that brings the retry counter to 3 set
    [interrupted] and do not write [bad]; a failed send makes the
    callback return -1 with both flags as they were.  Under every
    schedule [bad] is set as long as [interrupted] is clear, so it is
    still set after each of these unless it was cleared before.  A step
    clears [bad] exactly if it is an ACK callback received in
    [STATE_WAIT_ACK1]; when the loop is left [bad] is clear exactly if the
    run holds such a step, and then [interrupted] is set.  If every
    acknowledgement arrives in [STATE_WAIT_ACK0] or [STATE_WAIT_ACK1]
    (and no [state--] underflows), [bad] is cleared only through the full
    sequence: the run then holds, in this order, an accepted subscribe,
    an accepted final chunk of the QoS0 leg, an acknowledgement in
    [STATE_WAIT_ACK0], an accepted final chunk of the QoS1 leg and an
    acknowledgement in [STATE_WAIT_ACK1].  The full sequence does clear
    it. *)
Theorem failed_flag_lifecycle :
  bad globals_init = 1 /\ interrupted globals_init = 0 /\
  (forall (n : bool) (rc : Z) (p : pss) (g : globals),
     callback_mqtt (mk_call LWS_CALLBACK_CLIENT_CONNECTION_ERROR n rc) p g =
       Returned 0 p (mk_globals 1 (bad g)) [] /\
     callback_mqtt (mk_call LWS_CALLBACK_MQTT_CLIENT_CLOSED n rc) p g =
       Returned 0 p (mk_globals 1 (bad g)) [] /\
     (wrap_int (retries p + 1) = 3 ->
      callback_mqtt (mk_call LWS_CALLBACK_MQTT_RESEND n rc) p g =
        Returned 0 (mk_pss (state p) (pos p) 3) (mk_globals 1 (bad g)) []) /\
     (rc <> 0 ->
      state p = STATE_SUBSCRIBE \/ state p = STATE_PUBLISH_QOS0 \/
      state p = STATE_PUBLISH_QOS1 ->
      exists act : action,
        is_send act = true /\
        callback_mqtt (mk_call LWS_CALLBACK_MQTT_CLIENT_WRITEABLE n rc) p g =
          Returned (-1) p g [act])) /\
  (forall bs : list (list call),
     Forall (fun s =>
               (interrupted (st_globals s) = 0 -> bad (st_globals s) = 1) /\
               (fatal s = true ->
                bad (st_globals_after s) = bad (st_globals s)) /\
               (fatal s = true ->
                reason (st_call s) <> LWS_CALLBACK_MQTT_CLIENT_WRITEABLE ->
                interrupted (st_globals_after s) = 1) /\
               (bad (st_globals_after s) = 0 <->
                bad (st_globals s) = 0 \/ finishing s = true))
            (run bs pss_init globals_init) /\
     (bad (snd (run_final bs pss_init globals_init)) = 0 <->
      existsb finishing (run bs pss_init globals_init) = true) /\
     (bad (snd (run_final bs pss_init globals_init)) = 0 ->
      interrupted (snd (run_final bs pss_init globals_init)) = 1) /\
     (forallb ack_solicited (run bs pss_init globals_init) = true ->
      forallb resend_defined (run bs pss_init globals_init) = true ->
      bad (snd (run_final bs pss_init globals_init)) = 0 ->
      subseq full_sequence (milestones (run bs pss_init globals_init))
        = true)) /\
  run_final (one_per_call scenario_B) pss_init globals_init =
    (mk_pss STATE_TEST_FINISH 0 0, mk_globals 1 0) /\
  actions_of (run (one_per_call scenario_B) pss_init globals_init) =
    [lws_mqtt_client_send_subcribe sub_param] ++
    map (publish_action TEST_STRING_LEN STATE_PUBLISH_QOS0)
      [(0, 300, false); (300, 300, false); (600, 300, false);
       (900, 300, false); (1200, 137, true)] ++
    map (publish_action TEST_STRING_LEN STATE_PUBLISH_QOS1)
      [(0, 300, false); (300, 300, false); (600, 300, false);
       (900, 300, false); (1200, 137, true)] ++
    [lws_get_context; lws_cancel_service] /\
  milestones (run (one_per_call scenario_B) pss_init globals_init) =
    full_sequence.
Proof.
  split; [reflexivity | split; [reflexivity | split; [| split; [| split; [|split]]]]].
  - intros n rc p g. repeat split.
    + intros E. unfold callback_mqtt, callback_mqtt_with. cbn [reason].
      now rewrite E.
    + intros Hrc Hs.
      now apply (writeable_send_failure
                   (mk_call LWS_CALLBACK_MQTT_CLIENT_WRITEABLE n rc) p g).
  - intros bs.
    destruct (run_sched bs _ _ live_inv_init) as [Hrun Hfin].
    destruct (run_is_dispatch bs pss_init globals_init) as (cs & Htr & Hend).
    pose proof (dispatch_bad cs _ _ live_inv_init) as Hbad.
    rewrite <- Hend, <- Htr in Hbad.
    assert (Hclear : bad (snd (run_final bs pss_init globals_init)) = 0 <->
                     existsb finishing (run bs pss_init globals_init) = true).
    { rewrite Hbad. cbn [bad globals_init].
      split; [intros [H | H]; [discriminate | exact H] | auto]. }
    split; [|split; [exact Hclear | split]].
    + eapply Forall_impl; [|exact Hrun]. exact sched_step_flags.
    + destruct Hfin as (_ & _ & Hbi & _). exact Hbi.
    + intros Hack Hre Hz. apply Hclear in Hz. rewrite Htr in *.
      apply (full_sequence_needed cs pss_init globals_init); auto.
      unfold int_min, STATE_TEST_FINISH; cbn; lia.
  - vm_compute. reflexivity.
  - vm_compute. reflexivity.
  - vm_compute. reflexivity.
Qed.

Lemma failed_flag_lifecycle_witness :
  forallb ack_solicited
    (run (one_per_call scenario_B) pss_init globals_init) = true /\
  forallb resend_defined
    (run (one_per_call scenario_B) pss_init globals_init) = true /\
  bad (snd (run_final (one_per_call scenario_B) pss_init globals_init)) = 0 /\
  subseq full_sequence
    (milestones (run (one_per_call scenario_B) pss_init globals_init)) = true.
Proof.
  assert (H1 : forallb ack_solicited
                 (run (one_per_call scenario_B) pss_init globals_init) = true)
    by (vm_compute; reflexivity).
  assert (H2 : forallb resend_defined
                 (run (one_per_call scenario_B) pss_init globals_init) = true)
    by (vm_compute; reflexivity).
  assert (H3 : bad (snd (run_final (one_per_call scenario_B)
                           pss_init globals_init)) = 0)
    by (vm_compute; reflexivity).
  split; [exact H1 | split; [exact H2 | split; [exact H3 |]]].
  exact (proj2 (proj2 (proj2
           (proj1 (proj2 (proj2 (proj2 failed_flag_lifecycle)))
              (one_per_call scenario_B)))) H1 H2 H3).
Defined.

(** Without the condition on the acknowledgements the full sequence is
    not needed, and a resend request between subscribe and publish only
    delays it. *)
Example full_sequence_after_detour :
  subseq full_sequence
    (milestones
       (run (one_per_call ([writable_ok; resend] ++ scenario_B))
            pss_init globals_init)) = true /\
  milestones (run (one_per_call (repeat ack 5)) pss_init globals_init) =
    [Ack0; Ack1].
Proof. split; vm_compute; reflexivity. Qed.
(** ** More on single callbacks *)

Lemma payload_constants_in_range :
  0 <= TEST_STRING_LEN < size_modulus /\ 1 <= MAX_CHUNK < size_modulus.
Proof. unfold TEST_STRING_LEN, MAX_CHUNK, size_modulus. lia. Qed.

(** WRITEABLE in a publishing state with the cursor inside the payload,
    for whatever the send primitive returns. *)
Lemma writeable_publishing (c : call) (p : pss) (g : globals) :
  reason c = LWS_CALLBACK_MQTT_CLIENT_WRITEABLE ->
  state p = STATE_PUBLISH_QOS0 \/ state p = STATE_PUBLISH_QOS1 ->
  0 <= pos p < TEST_STRING_LEN ->
  callback_mqtt c p g =
    let len := Z.min MAX_CHUNK (TEST_STRING_LEN - pos p) in
    let fin := pos p + len =? TEST_STRING_LEN in
    let act := publish_action TEST_STRING_LEN (state p) (pos p, len, fin) in
    if send_rc c =? 0 then
      if fin
      then Returned 0 (mk_pss (state p + 1) 0 (retries p)) g [act]
      else Returned 0 (mk_pss (state p) (pos p + len) (retries p)) g [act]
    else Returned (-1) p g [act].
Proof.
  intros Hr Hs Hp.
  destruct payload_constants_in_range as [HL HC].
  unfold callback_mqtt, callback_mqtt_with, writeable. rewrite Hr.
  rewrite (next_chunk_min _ _ HL HC) by lia.
  set (len := Z.min MAX_CHUNK (TEST_STRING_LEN - pos p)).
  assert (Hlen : 1 <= len <= TEST_STRING_LEN - pos p)
    by (unfold len, MAX_CHUNK in *; lia).
  rewrite (is_final_chunk_spec _ HL) by lia.
  rewrite (wrap_size_small TEST_STRING_LEN), (wrap_size_small (pos p + len))
    by lia.
  cbv zeta. unfold publish_action, pub_of.
  cbn [chunk_off chunk_len chunk_final fst snd].
  destruct Hs as [-> | ->]; reflexivity.
Qed.

(** One callback never takes the cursor out of the payload. *)
Lemma callback_cursor_step
        (c : call) (p : pss) (g : globals)
        (r : Z) (p' : pss) (g' : globals) (acts : list action) :
  0 <= pos p < TEST_STRING_LEN ->
  callback_mqtt c p g = Returned r p' g' acts ->
  0 <= pos p' < TEST_STRING_LEN /\
  Forall (fun ch => chunk_in_payload ch /\ chunk_off ch = pos p)
         (publish_chunks acts) /\
  (forall ch, In ch (publish_chunks acts) -> r = 0 ->
     if chunk_final ch
     then state p' = state p + 1 /\ pos p' = 0
     else state p' = state p /\ pos p' = chunk_end ch).
Proof.
  intros Hp Hcall.
  destruct (reason c) eqn:Hr.
  5: {
    destruct (Z.eq_dec (state p) STATE_PUBLISH_QOS0) as [H1 | H1];
      [|destruct (Z.eq_dec (state p) STATE_PUBLISH_QOS1) as [H3 | H3]].
    1, 2: rewrite writeable_publishing in Hcall by auto;
          cbv zeta in Hcall;
          assert (Hlen : 1 <= Z.min MAX_CHUNK (TEST_STRING_LEN - pos p)
                         <= TEST_STRING_LEN - pos p)
            by (unfold MAX_CHUNK, TEST_STRING_LEN in *; lia);
          assert (Hmax : Z.min MAX_CHUNK (TEST_STRING_LEN - pos p) <= MAX_CHUNK)
            by lia;
          set (len := Z.min MAX_CHUNK (TEST_STRING_LEN - pos p)) in *;
          destruct (send_rc c =? 0);
          destruct (Z.eqb_spec (pos p + len) TEST_STRING_LEN) as [E | E];
          injection Hcall as <- <- <- <-;
          unfold publish_chunks, publish_action, chunk_in_payload, chunk_end;
          cbn [flat_map app chunk_off chunk_len chunk_final fst snd
               state pos retries];
          (split; [unfold TEST_STRING_LEN in *; lia |]);
          (split;
           [ constructor; [|constructor];
             cbn [chunk_off chunk_len chunk_final fst snd];
             repeat split; try lia; try congruence;
             intros; try discriminate; try lia
           | intros ch [<- | []] Hz;
             cbn [chunk_off chunk_len chunk_final fst snd];
             try discriminate; split; (reflexivity || lia) ]).
    unfold callback_mqtt, callback_mqtt_with, writeable in Hcall.
    rewrite Hr in Hcall.
    apply Z.eqb_neq in H1, H3. rewrite H1, H3 in Hcall. cbn [orb] in Hcall.
    split_ifs; injection Hcall as <- <- <- <-;
      cbn [pos publish_chunks flat_map app]; repeat split; auto;
      try lia; try (intros ch []).
  }
  all: unfold callback_mqtt, callback_mqtt_with in Hcall; rewrite Hr in Hcall;
    split_ifs; try discriminate; injection Hcall as <- <- <- <-;
    cbn [pos publish_chunks flat_map app];
    repeat split; auto; try lia; try (intros ch []);
    unfold TEST_STRING_LEN in *; lia.
Qed.

(** X1.  A callback that finds the cursor inside the payload leaves it
    inside the payload.  A chunk it publishes starts at the cursor, has
    between 1 and 300 bytes, ends within the 1337 bytes of the test
    string and carries the final flag exactly if it ends at 1337.  If the
    send is accepted, a final chunk advances the state and puts the
    cursor back to 0, and any other chunk keeps the state and moves the
    cursor to the end of the chunk. *)
Theorem callback_keeps_cursor_in_payload
        (c : call) (p : pss) (g : globals)
        (r : Z) (p' : pss) (g' : globals) (acts : list action) :
  0 <= pos p < TEST_STRING_LEN ->
  callback_mqtt c p g = Returned r p' g' acts ->
  0 <= pos p' < TEST_STRING_LEN /\
  Forall (fun ch => chunk_in_payload ch /\ chunk_off ch = pos p)
         (publish_chunks acts) /\
  (forall ch, In ch (publish_chunks acts) -> r = 0 ->
     if chunk_final ch
     then state p' = state p + 1 /\ pos p' = 0
     else state p' = state p /\ pos p' = chunk_end ch).
Proof. exact (callback_cursor_step c p g r p' g' acts). Qed.

Lemma callback_keeps_cursor_in_payload_witness :
  0 <= pos (mk_pss STATE_PUBLISH_QOS1 1200 1) < TEST_STRING_LEN /\
  Forall (fun ch => chunk_in_payload ch /\ chunk_off ch = 1200)
         (publish_chunks
            [publish_action TEST_STRING_LEN STATE_PUBLISH_QOS1
               (1200, 137, true)]).
Proof.
  assert (H : 0 <= pos (mk_pss STATE_PUBLISH_QOS1 1200 1) < TEST_STRING_LEN)
    by (cbn; unfold TEST_STRING_LEN; lia).
  split; [exact H|].
  exact (proj1 (proj2 (callback_keeps_cursor_in_payload writable_ok
           (mk_pss STATE_PUBLISH_QOS1 1200 1) globals_init
           0 (mk_pss STATE_WAIT_ACK1 0 1) globals_init
           [publish_action TEST_STRING_LEN STATE_PUBLISH_QOS1
              (1200, 137, true)] H eq_refl))).
Defined.

(** X3.  The callback returns 0 or -1.  It returns -1 exactly on a
    WRITEABLE callback in [STATE_SUBSCRIBE] or a publishing state whose
    send primitive reports failure, and then session and flags are those
    it was given. *)
Theorem callback_error_return_iff
        (c : call) (p : pss) (g : globals)
        (r : Z) (p' : pss) (g' : globals) (acts : list action) :
  callback_mqtt c p g = Returned r p' g' acts ->
  (r = 0 \/ r = -1) /\
  (r = -1 <->
   reason c = LWS_CALLBACK_MQTT_CLIENT_WRITEABLE /\ send_rc c <> 0 /\
   (state p = STATE_SUBSCRIBE \/ state p = STATE_PUBLISH_QOS0 \/
    state p = STATE_PUBLISH_QOS1)) /\
  (r = -1 -> p' = p /\ g' = g).
Proof.
  unfold callback_mqtt, callback_mqtt_with, writeable.
  intros Hcall.
  destruct (reason c); split_ifs; try discriminate;
    injection Hcall as <- <- <- <-;
    repeat match goal with
           | H : (_ || _)%bool = true |- _ => apply orb_true_iff in H
           | H : (_ || _)%bool = false |- _ => apply orb_false_iff in H
           | H : _ /\ _ |- _ => destruct H
           | H : (_ =? _) = true |- _ => apply Z.eqb_eq in H
           | H : (_ =? _) = false |- _ => apply Z.eqb_neq in H
           end;
    (split; [auto | split; [split|]]);
    try discriminate; auto;
    try (intros (Hr & Hrc & Hs); first [discriminate | lia]);
    try (intros _; repeat split; (reflexivity || lia || tauto)).
Qed.

Lemma callback_error_return_iff_witness :
  (-1 = 0 \/ -1 = -1) /\
  (-1 = -1 <->
   reason (writable_fail 5) = LWS_CALLBACK_MQTT_CLIENT_WRITEABLE /\
   send_rc (writable_fail 5) <> 0 /\
   (state pss_init = STATE_SUBSCRIBE \/ state pss_init = STATE_PUBLISH_QOS0 \/
    state pss_init = STATE_PUBLISH_QOS1)) /\
  (-1 = -1 -> pss_init = pss_init /\ globals_init = globals_init).
Proof.
  exact (callback_error_return_iff (writable_fail 5) pss_init globals_init
           (-1) pss_init globals_init
           [lws_mqtt_client_send_subcribe sub_param] eq_refl).
Defined.

(** X4.  The callback stops at [assert(pub)] exactly when it is a
    received-message callback whose [in] pointer is NULL; a received
    message with a descriptor changes nothing and calls nothing. *)
Theorem callback_asserts_iff (c : call) (p : pss) (g : globals) :
  (callback_mqtt c p g = Aborted <->
   reason c = LWS_CALLBACK_MQTT_CLIENT_RX /\ in_null c = true) /\
  (reason c = LWS_CALLBACK_MQTT_CLIENT_RX -> in_null c = false ->
   callback_mqtt c p g = Returned 0 p g []).
Proof.
  split; [split|].
  - apply aborted_is_rx.
  - intros [Hr Hn]. unfold callback_mqtt, callback_mqtt_with.
    now rewrite Hr, Hn.
  - intros Hr Hn. unfold callback_mqtt, callback_mqtt_with.
    now rewrite Hr, Hn.
Qed.

Lemma callback_asserts_iff_witness :
  callback_mqtt (mk_call LWS_CALLBACK_MQTT_CLIENT_RX true 0)
    (mk_pss STATE_WAIT_ACK1 0 1) globals_init = Aborted /\
  callback_mqtt (mk_call LWS_CALLBACK_MQTT_CLIENT_RX false 0)
    (mk_pss STATE_WAIT_ACK1 0 1) globals_init =
    Returned 0 (mk_pss STATE_WAIT_ACK1 0 1) globals_init [].
Proof.
  split.
  - apply (proj1 (callback_asserts_iff
             (mk_call LWS_CALLBACK_MQTT_CLIENT_RX true 0)
             (mk_pss STATE_WAIT_ACK1 0 1) globals_init)).
    split; reflexivity.
  - apply (proj2 (callback_asserts_iff
             (mk_call LWS_CALLBACK_MQTT_CLIENT_RX false 0)
             (mk_pss STATE_WAIT_ACK1 0 1) globals_init)); reflexivity.
Defined.

(** X5.  What the callback never does.  It never clears [interrupted]
    and never sets [bad]: [bad] changes only to 0 and only on an ACK.
    The retry counter changes only on a resend request, the cursor only
    on WRITEABLE or a resend request, the state only on WRITEABLE, ACK or
    a resend request; connection-established, subscribed, received-message
    and all other callbacks leave session and flags alone. *)
Theorem callback_frame
        (c : call) (p : pss) (g : globals)
        (r : Z) (p' : pss) (g' : globals) (acts : list action) :
  callback_mqtt c p g = Returned r p' g' acts ->
  (interrupted g' = interrupted g \/ interrupted g' = 1) /\
  (bad g' = bad g \/ (bad g' = 0 /\ reason c = LWS_CALLBACK_MQTT_ACK)) /\
  (retries p' <> retries p -> reason c = LWS_CALLBACK_MQTT_RESEND) /\
  (pos p' <> pos p ->
   reason c = LWS_CALLBACK_MQTT_CLIENT_WRITEABLE \/
   reason c = LWS_CALLBACK_MQTT_RESEND) /\
  (state p' <> state p ->
   reason c = LWS_CALLBACK_MQTT_CLIENT_WRITEABLE \/
   reason c = LWS_CALLBACK_MQTT_ACK \/
   reason c = LWS_CALLBACK_MQTT_RESEND) /\
  (g' <> g ->
   reason c = LWS_CALLBACK_CLIENT_CONNECTION_ERROR \/
   reason c = LWS_CALLBACK_MQTT_CLIENT_CLOSED \/
   reason c = LWS_CALLBACK_MQTT_ACK \/
   reason c = LWS_CALLBACK_MQTT_RESEND).
Proof.
  unfold callback_mqtt, callback_mqtt_with, writeable.
  intros Hcall.
  destruct (reason c); split_ifs; try discriminate;
    injection Hcall as <- <- <- <-;
    cbn [state pos retries interrupted bad];
    repeat split; auto; try (intros H; now contradiction H); tauto.
Qed.

Lemma callback_frame_witness :
  (interrupted globals_init = interrupted globals_init \/
   interrupted globals_init = 1) /\
  (bad globals_init = bad globals_init \/
   (bad globals_init = 0 /\ reason resend = LWS_CALLBACK_MQTT_ACK)) /\
  (retries (mk_pss STATE_PUBLISH_QOS1 0 1) <> retries (mk_pss STATE_WAIT_ACK1 7 0) ->
   reason resend = LWS_CALLBACK_MQTT_RESEND) /\
  (pos (mk_pss STATE_PUBLISH_QOS1 0 1) <> pos (mk_pss STATE_WAIT_ACK1 7 0) ->
   reason resend = LWS_CALLBACK_MQTT_CLIENT_WRITEABLE \/
   reason resend = LWS_CALLBACK_MQTT_RESEND) /\
  (state (mk_pss STATE_PUBLISH_QOS1 0 1) <> state (mk_pss STATE_WAIT_ACK1 7 0) ->
   reason resend = LWS_CALLBACK_MQTT_CLIENT_WRITEABLE \/
   reason resend = LWS_CALLBACK_MQTT_ACK \/
   reason resend = LWS_CALLBACK_MQTT_RESEND) /\
  (globals_init <> globals_init ->
   reason resend = LWS_CALLBACK_CLIENT_CONNECTION_ERROR \/
   reason resend = LWS_CALLBACK_MQTT_CLIENT_CLOSED \/
   reason resend = LWS_CALLBACK_MQTT_ACK \/
   reason resend = LWS_CALLBACK_MQTT_RESEND).
Proof.
  exact (callback_frame resend (mk_pss STATE_WAIT_ACK1 7 0) globals_init
           0 (mk_pss STATE_PUBLISH_QOS1 0 1) globals_init [] eq_refl).
Defined.

(** X6.  What a callback asks of the library.  It makes at most one
    call, except the acknowledgement that finishes the test, which makes
    two: [lws_get_context], then [lws_cancel_service] on what that gave.
    It never sends twice.  Each call has one origin:
    [lws_callback_on_writable] comes from the connection-established
    callback; a subscribe, of [sub_param], from WRITEABLE in
    [STATE_SUBSCRIBE]; a publish from WRITEABLE in a publishing state, at
    QoS0 in [STATE_PUBLISH_QOS0] and at QoS1 in [STATE_PUBLISH_QOS1], to
    topic "test/topic" with the total length 1337 and starting at the
    cursor; [lws_get_context] and [lws_cancel_service] from the ACK that
    takes [STATE_WAIT_ACK1] to [STATE_TEST_FINISH] and clears [bad]. *)
Theorem callback_actions_justified
        (c : call) (p : pss) (g : globals)
        (r : Z) (p' : pss) (g' : globals) (acts : list action) :
  int_min <= state p <= int_max ->
  callback_mqtt c p g = Returned r p' g' acts ->
  (acts = [lws_get_context; lws_cancel_service] \/
   (List.length acts <= 1)%nat) /\
  (List.length (filter is_send acts) <= 1)%nat /\
  Forall (action_justified c p p' g') acts.
Proof.
  unfold callback_mqtt, callback_mqtt_with, writeable.
  intros Hs Hcall.
  destruct (reason c) eqn:Hr; split_ifs; try discriminate;
    injection Hcall as <- <- <- <-;
    repeat match goal with
           | H : negb _ = _ |- _ =>
               rewrite ?negb_true_iff, ?negb_false_iff in H
           | H : (_ || _)%bool = true |- _ => apply orb_true_iff in H
           | H : (_ =? _) = true |- _ => apply Z.eqb_eq in H
           | H : (_ =? _) = false |- _ => apply Z.eqb_neq in H
           end;
    (split; [first [left; reflexivity | right; cbn; lia] |]);
    (split; [cbn; lia |]);
    repeat first [apply Forall_nil | apply Forall_cons];
    unfold action_justified;
    cbn [qos pub_topic topic_len payload_len state bad];
    repeat match goal with
           | H : _ \/ _ |- _ => destruct H
           | H : (_ =? _) = true |- _ => apply Z.eqb_eq in H
           end;
    try discriminate;
    repeat match goal with |- _ /\ _ => split end;
    auto; try tauto.
  all: cbn [state] in *;
    match goal with
    | H : wrap_int _ = _ |- _ =>
        apply wrap_int_succ_is in H;
        [| assumption | unfold int_min, STATE_TEST_FINISH; lia]
    end;
    unfold STATE_WAIT_ACK1, STATE_TEST_FINISH in *; lia.
Qed.

Lemma callback_actions_justified_witness :
  ([lws_get_context; lws_cancel_service] =
     [lws_get_context; lws_cancel_service] \/
   (List.length [lws_get_context; lws_cancel_service] <= 1)%nat) /\
  (List.length (filter is_send [lws_get_context; lws_cancel_service]) <= 1)%nat /\
  Forall (action_justified ack (mk_pss STATE_WAIT_ACK1 0 2)
            (mk_pss STATE_TEST_FINISH 0 2) (mk_globals 1 0))
         [lws_get_context; lws_cancel_service].
Proof.
  apply (callback_actions_justified ack (mk_pss STATE_WAIT_ACK1 0 2)
           globals_init 0 (mk_pss STATE_TEST_FINISH 0 2) (mk_globals 1 0)
           [lws_get_context; lws_cancel_service]).
  - in_range.
  - reflexivity.
Defined.


(** ** More on runs and publish legs *)

Lemma publish_chunks_app (a b : list action) :
  publish_chunks (a ++ b) = publish_chunks a ++ publish_chunks b.
Proof. unfold publish_chunks. apply flat_map_app. Qed.

Lemma dispatch_cursor (cs : list call) :
  forall (p : pss) (g : globals),
    0 <= pos p < TEST_STRING_LEN ->
    Forall chunk_in_payload (publish_chunks (actions_of (dispatch cs p g))) /\
    Forall (fun s => 0 <= pos (st_pss s) < TEST_STRING_LEN) (dispatch cs p g) /\
    0 <= pos (fst (snd (dispatch_final cs p g))) < TEST_STRING_LEN.
Proof.
  induction cs as [|c rest IH]; intros p g Hp.
  - repeat split; try constructor; cbn [dispatch_final fst snd]; lia.
  - cbn [dispatch dispatch_final].
    destruct (callback_mqtt c p g) as [|r p' g' acts] eqn:Hcall.
    + repeat split; try (constructor; auto; fail); cbn [fst snd]; lia.
    + destruct (callback_cursor_step c p g r p' g' acts Hp Hcall)
        as (Hp' & Hch & _).
      destruct (IH p' g' Hp') as (IH1 & IH2 & IH3).
      split; [|split; [|exact IH3]].
      * change (actions_of (mk_step c p g (Returned r p' g' acts)
                              :: dispatch rest p' g'))
          with (acts ++ actions_of (dispatch rest p' g')).
        rewrite publish_chunks_app. apply Forall_app. split; [|exact IH1].
        eapply Forall_impl; [|exact Hch]. now intros ch [H _].
      * constructor; [exact Hp | exact IH2].
Qed.

(** X2.  In a run of the event loop that starts with the cursor inside
    the payload (the initial session does), whatever callbacks arrive, in
    whatever batches, and whatever the send primitives return: every step
    finds the cursor in [[0, 1337)], and every chunk handed to
    [lws_mqtt_client_send_publish] is a non-empty slice of at most 300
    bytes that lies within the test string and is flagged final exactly
    if it ends at byte 1337. *)
Theorem run_publishes_within_payload (bs : list (list call)) :
  forall (p : pss) (g : globals),
    0 <= pos p < TEST_STRING_LEN ->
    Forall chunk_in_payload (publish_chunks (actions_of (run bs p g))) /\
    Forall (fun s => 0 <= pos (st_pss s) < TEST_STRING_LEN) (run bs p g) /\
    0 <= pos (fst (run_final bs p g)) < TEST_STRING_LEN.
Proof.
  intros p g Hp. destruct (run_is_dispatch bs p g) as (cs & -> & ->).
  now apply dispatch_cursor.
Qed.

Lemma run_publishes_within_payload_witness :
  Forall chunk_in_payload
    (publish_chunks
       (actions_of (run (one_per_call scenario_C) pss_init globals_init))) /\
  Forall (fun s => 0 <= pos (st_pss s) < TEST_STRING_LEN)
    (run (one_per_call scenario_C) pss_init globals_init) /\
  0 <= pos (fst (run_final (one_per_call scenario_C) pss_init globals_init))
    < TEST_STRING_LEN.
Proof.
  apply (run_publishes_within_payload (one_per_call scenario_C)
           pss_init globals_init).
  cbn. unfold TEST_STRING_LEN. lia.
Defined.

Section LegShape.

Variables L C : Z.
Hypothesis L_range : 0 <= L < size_modulus.
Hypothesis C_range : 1 <= C < size_modulus.

Lemma ceil_div_one (x : Z) : 1 <= x <= C -> (x + C - 1) / C = 1.
Proof.
  intros Hx. symmetry. apply Z.div_unique with (r := x - 1); lia.
Qed.

Lemma ceil_div_step (x : Z) :
  C < x -> (x + C - 1) / C = (x - C + C - 1) / C + 1 /\ 1 <= (x - C + C - 1) / C.
Proof.
  intros Hx. split.
  - replace (x + C - 1) with (x - C + C - 1 + 1 * C) by lia.
    apply Z.div_add. lia.
  - apply Z.div_le_lower_bound; lia.
Qed.

(** The shape of a leg from any cursor: full chunks of [C] bytes, then
    the final one with what is left. *)
Lemma publish_leg_shape (n : nat) :
  forall (s cursor r : Z) (g : globals),
    s = STATE_PUBLISH_QOS0 \/ s = STATE_PUBLISH_QOS1 ->
    0 <= cursor <= L -> cursor < L \/ L = 0 ->
    L - cursor <= Z.of_nat n ->
    exists (front : list chunk) (last : chunk),
      publish_leg L C (S n) (mk_pss s cursor r) g =
        Some (map (publish_action L s) (front ++ [last]), mk_pss (s + 1) 0 r) /\
      Forall (fun c => chunk_final c = false /\ chunk_len c = C) front /\
      chunk_final last = true /\
      chunk_len last = L - cursor - C * Z.of_nat (List.length front) /\
      (0 < L -> 1 <= chunk_len last) /\ chunk_len last <= C /\
      Z.of_nat (List.length front) + 1 = Z.max 1 ((L - cursor + C - 1) / C).
Proof.
  induction n as [|m IH]; intros s cursor r g Hs Hc Hne Hn;
    rewrite publish_leg_unfold;
    destruct (Z_le_gt_dec (L - cursor) C) as [Hlast | Hmore]; try lia.
  1, 2: rewrite (writeable_last L C) by assumption; cbn [state];
        replace (s + 1 =? s) with false by (symmetry; apply Z.eqb_neq; lia);
        exists [], (cursor, L - cursor, true);
        cbn [app map List.length Z.of_nat chunk_len chunk_final fst snd];
        repeat split; try lia; auto;
        destruct (Z.eq_dec (L - cursor) 0) as [E | E];
        [ rewrite E; cbn [Z.add]; rewrite Z.div_small by lia; lia
        | rewrite ceil_div_one by lia; lia ].
  rewrite (writeable_more L C) by (try assumption; lia). cbn [state].
  rewrite Z.eqb_refl.
  destruct (IH s (cursor + C) r g Hs) as
    (front & last & Hleg & Hfront & Hfin & Hlen & Hpos & Hle & Hcount);
    try lia.
  rewrite Hleg.
  exists ((cursor, C, false) :: front), last.
  destruct (ceil_div_step (L - cursor)) as [Hd1 Hd2]; [lia|].
  replace (L - (cursor + C) + C - 1) with (L - cursor - C + C - 1) in Hcount
    by lia.
  cbn [List.length]. rewrite Nat2Z.inj_succ.
  repeat split; try assumption; try lia.
  constructor; [split; reflexivity | exact Hfront].
Qed.

End LegShape.

(** X7.  A publish leg over [L] bytes with ceiling [C] takes exactly
    [max 1 (ceil (L / C))] accepted WRITEABLE callbacks, one publish
    each.  All chunks but the last have exactly [C] bytes and are not
    final; the last is final, has the remaining [L - C * (count - 1)]
    bytes, which is at most [C] and, unless the payload is empty, at
    least 1. *)
Theorem publish_leg_chunk_count (L C s r : Z) (g : globals) :
  0 <= L < size_modulus -> 1 <= C < size_modulus ->
  s = STATE_PUBLISH_QOS0 \/ s = STATE_PUBLISH_QOS1 ->
  exists (acts : list action) (front : list chunk) (last : chunk),
    publish_leg L C (S (Z.to_nat L)) (mk_pss s 0 r) g =
      Some (acts, mk_pss (s + 1) 0 r) /\
    publish_chunks acts = front ++ [last] /\
    Z.of_nat (List.length acts) = Z.max 1 ((L + C - 1) / C) /\
    Forall (fun c => chunk_final c = false /\ chunk_len c = C) front /\
    chunk_final last = true /\
    chunk_len last = L - C * (Z.of_nat (List.length acts) - 1) /\
    (0 < L -> 1 <= chunk_len last) /\ chunk_len last <= C.
Proof.
  intros HL HC Hs.
  destruct (publish_leg_shape L C HL HC (Z.to_nat L) s 0 r g Hs)
    as (front & last & Hleg & Hfront & Hfin & Hlen & Hpos & Hle & Hcount);
    try lia.
  exists (map (publish_action L s) (front ++ [last])), front, last.
  rewrite publish_chunks_actions, length_map, length_app, Nat2Z.inj_add.
  cbn [List.length Z.of_nat Pos.of_succ_nat].
  rewrite Z.sub_0_r in Hcount, Hlen.
  repeat split; try assumption; try lia.
Qed.

Lemma publish_leg_chunk_count_witness :
  exists (acts : list action) (front : list chunk) (last : chunk),
    publish_leg 1000 250 (S (Z.to_nat 1000)) (mk_pss STATE_PUBLISH_QOS0 0 0)
      globals_init = Some (acts, mk_pss (STATE_PUBLISH_QOS0 + 1) 0 0) /\
    publish_chunks acts = front ++ [last] /\
    Z.of_nat (List.length acts) = Z.max 1 ((1000 + 250 - 1) / 250) /\
    Forall (fun c => chunk_final c = false /\ chunk_len c = 250) front /\
    chunk_final last = true /\
    chunk_len last = 1000 - 250 * (Z.of_nat (List.length acts) - 1) /\
    (0 < 1000 -> 1 <= chunk_len last) /\ chunk_len last <= 250.
Proof.
  apply (publish_leg_chunk_count 1000 250 STATE_PUBLISH_QOS0 0 globals_init).
  - unfold size_modulus; lia.
  - unfold size_modulus; lia.
  - left; reflexivity.
Defined.

Lemma run_final_interrupted (bs : list (list call)) (p : pss) (g : globals) :
  interrupted g <> 0 -> run_final bs p g = (p, g).
Proof.
  intros H. destruct bs as [|b rest]; [reflexivity|].
  cbn [run_final]. apply Z.eqb_neq in H. now rewrite H.
Qed.

(** Batches that arrive after [interrupted] was found set are not
    dispatched. *)
Lemma run_final_app_interrupted (a b : list (list call)) :
  forall (p : pss) (g : globals),
    interrupted (snd (run_final a p g)) <> 0 ->
    run_final (a ++ b) p g = run_final a p g.
Proof.
  induction a as [|x rest IH]; intros p g H.
  - cbn [run_final snd app] in *. now apply run_final_interrupted.
  - cbn [app run_final] in *. destruct (interrupted g =? 0); [|reflexivity].
    destruct (dispatch_final x p g) as [ok [p' g']].
    destruct ok; [now apply IH | reflexivity].
Qed.

(** X8.  The session absorbs up to two resend requests: when the QoS1
    leg is answered by [k <= 2] resend requests, republished each time
    and then acknowledged, the run ends in [STATE_TEST_FINISH] with
    [bad] cleared and the retry counter at [k], whether every callback
    has a call of [lws_service] of its own or all come in one.  Once the
    third resend request has been served and [lws_service] has returned,
    the loop is left in [STATE_WAIT_ACK1] with [bad] still set, whatever
    later calls would have dispatched; so with one callback per call the
    run with [k >= 3] requests ends at the third.  Dispatched in one
    call of [lws_service], the callbacks of the run with three requests
    end in [STATE_TEST_FINISH] with [bad] cleared. *)
Theorem resend_tolerance (k : nat) :
  ((k <= 2)%nat ->
   run_final (one_per_call (scenario_resends k)) pss_init globals_init =
     (mk_pss STATE_TEST_FINISH 0 (Z.of_nat k), mk_globals 1 0) /\
   run_final [scenario_resends k] pss_init globals_init =
     (mk_pss STATE_TEST_FINISH 0 (Z.of_nat k), mk_globals 1 0)) /\
  (forall bs : list (list call),
     run_final (one_per_call scenario_C ++ bs) pss_init globals_init =
       (mk_pss STATE_WAIT_ACK1 0 3, mk_globals 1 1)) /\
  ((3 <= k)%nat ->
   run_final (one_per_call (scenario_resends k)) pss_init globals_init =
     (mk_pss STATE_WAIT_ACK1 0 3, mk_globals 1 1)) /\
  run_final [scenario_resends 3] pss_init globals_init =
    (mk_pss STATE_TEST_FINISH 0 3, mk_globals 1 0).
Proof.
  assert (Hstop : forall bs : list (list call),
             run_final (one_per_call scenario_C ++ bs) pss_init globals_init =
               (mk_pss STATE_WAIT_ACK1 0 3, mk_globals 1 1)).
  { intros bs.
    rewrite run_final_app_interrupted; vm_compute;
      [reflexivity | discriminate]. }
  split; [|split; [exact Hstop | split]].
  - intros Hk. destruct k as [|[|[|k]]]; try lia;
      split; vm_compute; reflexivity.
  - intros Hk. destruct k as [|[|[|j]]]; try lia.
    change (one_per_call (scenario_resends (S (S (S j)))))
      with (one_per_call scenario_C ++
            one_per_call
              (publish_burst ++
               List.concat (repeat ([resend] ++ publish_burst) j) ++ [ack])).
    apply Hstop.
  - vm_compute. reflexivity.
Qed.

Lemma resend_tolerance_witness :
  run_final (one_per_call (scenario_resends 2)) pss_init globals_init =
    (mk_pss STATE_TEST_FINISH 0 2, mk_globals 1 0) /\
  run_final (one_per_call (scenario_resends 5)) pss_init globals_init =
    (mk_pss STATE_WAIT_ACK1 0 3, mk_globals 1 1).
Proof.
  split.
  - apply (proj1 (resend_tolerance 2)). lia.
  - apply (proj1 (proj2 (proj2 (resend_tolerance 5)))). lia.
Defined.

(** X9.  [TEST_STRING_LEN] is the length of [test_string], as the
    comment at the macro says, and the chunks one publish leg hands to
    the library, taken from the string at their offsets and put end to
    end, are the string. *)
Theorem test_payload_delivered_whole :
  Z.of_nat (String.length test_string) = TEST_STRING_LEN /\
  (forall (s r : Z) (g : globals),
     s = STATE_PUBLISH_QOS0 \/ s = STATE_PUBLISH_QOS1 ->
     exists acts : list action,
       publish_leg TEST_STRING_LEN MAX_CHUNK 5 (mk_pss s 0 r) g =
         Some (acts, mk_pss (s + 1) 0 r) /\
       fold_right String.append EmptyString
         (map chunk_bytes (publish_chunks acts)) = test_string).
Proof.
  split; [vm_compute; reflexivity|].
  intros s r g [-> | ->]; eexists; (split; [reflexivity|]);
    vm_compute; reflexivity.
Qed.

Lemma test_payload_delivered_whole_witness :
  exists acts : list action,
    publish_leg TEST_STRING_LEN MAX_CHUNK 5
      (mk_pss STATE_PUBLISH_QOS1 0 2) globals_init =
      Some (acts, mk_pss (STATE_PUBLISH_QOS1 + 1) 0 2) /\
    fold_right String.append EmptyString
      (map chunk_bytes (publish_chunks acts)) = test_string.
Proof.
  apply (proj2 test_payload_delivered_whole STATE_PUBLISH_QOS1 2 globals_init).
  right; reflexivity.
Defined.


(** ** The run controller *)

(** A callback other than an acknowledgement does not write [bad]. *)
Lemma callback_keeps_bad (c : call) (p : pss) (g : globals)
      (r : Z) (p' : pss) (g' : globals) (acts : list action) :
  is_ack c = false ->
  callback_mqtt c p g = Returned r p' g' acts -> bad g' = bad g.
Proof.
  unfold is_ack, callback_mqtt, callback_mqtt_with, writeable.
  intros Hc Hcall.
  destruct (reason c); try discriminate; split_ifs; try discriminate;
    injection Hcall as <- <- <- <-; reflexivity.
Qed.

(** No callback clears [interrupted]. *)
Lemma callback_interrupted_sticky (c : call) (p : pss) (g : globals)
      (r : Z) (p' : pss) (g' : globals) (acts : list action) :
  interrupted g = 1 ->
  callback_mqtt c p g = Returned r p' g' acts -> interrupted g' = 1.
Proof.
  unfold callback_mqtt, callback_mqtt_with, writeable.
  intros Hi Hcall.
  destruct (reason c); split_ifs; try discriminate;
    injection Hcall as <- <- <- <-; auto.
Qed.

Lemma live_inv_interrupt (p : pss) (g : globals) :
  live_inv p g -> live_inv p (mk_globals 1 (bad g)).
Proof.
  intros (Hi & Hb & Hbi & Hs & Hr & Hlive).
  unfold live_inv; cbn [interrupted bad].
  repeat split; try tauto; try lia.
Qed.

Section Controller.

Variables USE_SSL ALLOW_SELFSIGNED OPERATIONAL : Z.

(** A notification leaves the flags or sets [interrupted]. *)
Lemma notify_flags (cur tgt d : Z) (ok : bool) (g : globals) :
  snd (fst (system_notify_cb USE_SSL ALLOW_SELFSIGNED OPERATIONAL
              cur tgt d ok g)) = g \/
  snd (fst (system_notify_cb USE_SSL ALLOW_SELFSIGNED OPERATIONAL
              cur tgt d ok g)) = mk_globals 1 (bad g).
Proof.
  unfold system_notify_cb, connect_client.
  destruct (negb (cur =? OPERATIONAL) || negb (tgt =? OPERATIONAL));
    [now left|].
  destruct (negb (d =? 0)), ok; cbn; auto.
Qed.

Lemma notify_failed (d : Z) (g : globals) :
  snd (fst (system_notify_cb USE_SSL ALLOW_SELFSIGNED OPERATIONAL
              OPERATIONAL OPERATIONAL d false g)) = mk_globals 1 (bad g).
Proof.
  unfold system_notify_cb, connect_client. rewrite Z.eqb_refl.
  now destruct (negb (d =? 0)).
Qed.

(** One call of [lws_service] keeps [live_inv]; [bad] is clear after it
    exactly if it was clear before or the call dispatched the finishing
    acknowledgement; and [interrupted], once set, stays set. *)
Lemma serve_inv (d : Z) (hs : list happening) :
  forall (p p' : pss) (g g' : globals),
    live_inv p g ->
    serve USE_SSL ALLOW_SELFSIGNED OPERATIONAL d hs p g = Some (p', g') ->
    live_inv p' g' /\
    (bad g' = 0 <->
     bad g = 0 \/
     existsb finishing
       (serve_trace USE_SSL ALLOW_SELFSIGNED OPERATIONAL d hs p g) = true) /\
    (interrupted g = 1 -> interrupted g' = 1).
Proof.
  induction hs as [|h rest IH]; intros p p' g g' Hinv Hserve.
  - cbn in Hserve. injection Hserve as <- <-. cbn [serve_trace existsb].
    split; [exact Hinv | split; [|auto]].
    split; [auto | intros [H | H]; [exact H | discriminate]].
  - destruct h as [c | cur tgt ok |]; cbn [serve serve_trace] in *.
    + pose proof (head_sched c p g Hinv) as Hs.
      destruct (sched_step_flags _ Hs) as (_ & _ & _ & Hbad).
      destruct (callback_mqtt c p g) as [|r q h acts] eqn:Hcall;
        [discriminate|].
      unfold st_globals_after in Hbad. cbn [st_out st_globals] in Hbad.
      destruct (IH q p' h g'
                  (callback_live_step c p g r q h acts Hinv Hcall) Hserve)
        as (Hinv' & Hb' & Hst').
      split; [exact Hinv' | split].
      * cbn [existsb]. rewrite orb_true_iff. tauto.
      * intros Hi. apply Hst'.
        exact (callback_interrupted_sticky c p g r q h acts Hi Hcall).
    + destruct (notify_flags cur tgt d ok g) as [E | E]; rewrite E in *.
      * now apply IH.
      * destruct (IH p p' _ g' (live_inv_interrupt p g Hinv) Hserve)
          as (Hinv' & Hb' & Hst').
        cbn [bad interrupted] in *.
        split; [exact Hinv' | split; [exact Hb' | auto]].
    + unfold sigint_handler in *.
      destruct (IH p p' _ g' (live_inv_interrupt p g Hinv) Hserve)
        as (Hinv' & Hb' & Hst').
      cbn [bad interrupted] in *.
      split; [exact Hinv' | split; [exact Hb' | auto]].
Qed.

(** A call of [lws_service] that dispatches no acknowledgement does not
    write [bad]. *)
Lemma serve_no_ack (d : Z) (hs : list happening) :
  forall (p p' : pss) (g g' : globals),
    Forall (fun h => match h with
                     | Dispatch c => is_ack c = false
                     | _ => True
                     end) hs ->
    serve USE_SSL ALLOW_SELFSIGNED OPERATIONAL d hs p g = Some (p', g') ->
    bad g' = bad g.
Proof.
  induction hs as [|h rest IH]; intros p p' g g' Hno Hserve.
  - cbn in Hserve. now injection Hserve as <- <-.
  - inversion Hno as [|x l Hh Hrest]; subst.
    destruct h as [c | cur tgt ok |]; cbn [serve] in Hserve.
    + destruct (callback_mqtt c p g) as [|r q h acts] eqn:Hcall;
        [discriminate|].
      rewrite (IH q p' h g' Hrest Hserve).
      exact (callback_keeps_bad c p g r q h acts Hh Hcall).
    + rewrite (IH _ _ _ _ Hrest Hserve).
      destruct (notify_flags cur tgt d ok g) as [-> | ->]; reflexivity.
    + rewrite (IH _ _ _ _ Hrest Hserve). reflexivity.
Qed.

(** A SIGINT or a failed connection attempt during a call of
    [lws_service] leaves [interrupted] set when the call returns. *)
Lemma serve_interrupts (d : Z) (hs : list happening) :
  forall (p p' : pss) (g g' : globals),
    live_inv p g ->
    In Sigint hs \/ In (Notify OPERATIONAL OPERATIONAL false) hs ->
    serve USE_SSL ALLOW_SELFSIGNED OPERATIONAL d hs p g = Some (p', g') ->
    interrupted g' = 1.
Proof.
  induction hs as [|h rest IH]; intros p p' g g' Hinv Hin Hserve.
  - destruct Hin as [[] | []].
  - assert (Hcase : h = Sigint \/
                    h = Notify OPERATIONAL OPERATIONAL false \/
                    (In Sigint rest \/
                     In (Notify OPERATIONAL OPERATIONAL false) rest))
      by (cbn [In] in Hin; tauto).
    destruct Hcase as [-> | [-> | Hrest]]; cbn [serve] in Hserve.
    + now destruct (serve_inv d rest p p' _ g'
                      (live_inv_interrupt p g Hinv) Hserve) as (_ & _ & H);
        apply H.
    + rewrite notify_failed in Hserve.
      now destruct (serve_inv d rest p p' _ g'
                      (live_inv_interrupt p g Hinv) Hserve) as (_ & _ & H);
        apply H.
    + destruct h as [c | cur tgt ok |]; cbn [serve] in Hserve.
      * destruct (callback_mqtt c p g) as [|r q h acts] eqn:Hcall;
          [discriminate|].
        exact (IH q p' h g'
                 (callback_live_step c p g r q h acts Hinv Hcall)
                 Hrest Hserve).
      * destruct (notify_flags cur tgt d ok g) as [E | E];
          rewrite E in Hserve.
        -- exact (IH p p' g g' Hinv Hrest Hserve).
        -- exact (IH p p' _ g' (live_inv_interrupt p g Hinv) Hrest Hserve).
      * exact (IH p p' _ g' (live_inv_interrupt p g Hinv) Hrest Hserve).
Qed.

Lemma event_loop_stopped (d : Z) (ts : list turn) (n : Z)
      (p : pss) (g : globals) :
  (0 <=? n) && (interrupted g =? 0) = false ->
  event_loop USE_SSL ALLOW_SELFSIGNED OPERATIONAL d ts n p g = Left p g /\
  loop_trace USE_SSL ALLOW_SELFSIGNED OPERATIONAL d ts n p g = [].
Proof.
  intros H. destruct ts; cbn [event_loop loop_trace]; now rewrite H.
Qed.

Lemma event_loop_cons (d : Z) (t : turn) (rest : list turn) (n : Z)
      (p : pss) (g : globals) :
  (0 <=? n) && (interrupted g =? 0) = true ->
  event_loop USE_SSL ALLOW_SELFSIGNED OPERATIONAL d (t :: rest) n p g =
    match serve USE_SSL ALLOW_SELFSIGNED OPERATIONAL d (happens t) p g with
    | None => Crashed
    | Some (p', g') =>
        event_loop USE_SSL ALLOW_SELFSIGNED OPERATIONAL d rest
          (service_ret t) p' g'
    end /\
  loop_trace USE_SSL ALLOW_SELFSIGNED OPERATIONAL d (t :: rest) n p g =
    serve_trace USE_SSL ALLOW_SELFSIGNED OPERATIONAL d (happens t) p g ++
    match serve USE_SSL ALLOW_SELFSIGNED OPERATIONAL d (happens t) p g with
    | None => []
    | Some (p', g') =>
        loop_trace USE_SSL ALLOW_SELFSIGNED OPERATIONAL d rest
          (service_ret t) p' g'
    end.
Proof. intros H. cbn [event_loop loop_trace]. now rewrite H. Qed.

(** Turns compose: the loop over [a ++ b] is the loop over [b] resumed
    where the loop over [a] stood, if it was still turning. *)
Lemma event_loop_app (d : Z) (a b : list turn) :
  forall (n : Z) (p : pss) (g : globals),
    event_loop USE_SSL ALLOW_SELFSIGNED OPERATIONAL d (a ++ b) n p g =
    match event_loop USE_SSL ALLOW_SELFSIGNED OPERATIONAL d a n p g with
    | Running n' p' g' =>
        event_loop USE_SSL ALLOW_SELFSIGNED OPERATIONAL d b n' p' g'
    | res => res
    end.
Proof.
  induction a as [|t rest IH]; intros n p g;
    destruct ((0 <=? n) && (interrupted g =? 0)) eqn:Hg.
  - cbn [app event_loop]. now rewrite Hg.
  - cbn [app]. rewrite (proj1 (event_loop_stopped d b n p g Hg)).
    cbn [event_loop]. now rewrite Hg.
  - cbn [app]. rewrite !(proj1 (event_loop_cons d t _ n p g Hg)).
    destruct (serve _ _ _ _ _ _ _) as [[p' g']|]; [apply IH | reflexivity].
  - now rewrite !(proj1 (event_loop_stopped d _ n p g Hg)).
Qed.

(** Wherever the loop stands, session and flags satisfy [live_inv] and
    [bad] is clear exactly if the loop dispatched the finishing
    acknowledgement; while it is turning, [lws_service] has not failed
    and [interrupted] is 0. *)
Lemma event_loop_inv (d : Z) (ts : list turn) :
  forall (n : Z) (p : pss) (g : globals),
    live_inv p g ->
    match event_loop USE_SSL ALLOW_SELFSIGNED OPERATIONAL d ts n p g with
    | Crashed => True
    | Running n' p' g' =>
        live_inv p' g' /\ 0 <= n' /\ interrupted g' = 0 /\
        (bad g' = 0 <->
         bad g = 0 \/
         existsb finishing
           (loop_trace USE_SSL ALLOW_SELFSIGNED OPERATIONAL d ts n p g) = true)
    | Left p' g' =>
        live_inv p' g' /\
        (bad g' = 0 <->
         bad g = 0 \/
         existsb finishing
           (loop_trace USE_SSL ALLOW_SELFSIGNED OPERATIONAL d ts n p g) = true)
    end.
Proof.
  induction ts as [|t rest IH]; intros n p g Hinv;
    destruct ((0 <=? n) && (interrupted g =? 0)) eqn:Hg.
  - cbn [event_loop loop_trace]. rewrite Hg.
    apply andb_true_iff in Hg as [Hn Hi].
    apply Z.leb_le in Hn. apply Z.eqb_eq in Hi.
    cbn [existsb].
    split; [exact Hinv | split; [exact Hn | split; [exact Hi |]]].
    split; [auto | intros [H | H]; [exact H | discriminate]].
  - cbn [event_loop loop_trace]. rewrite Hg. cbn [existsb].
    split; [exact Hinv|]. split; auto.
    intros [H | H]; [exact H | discriminate].
  - destruct (event_loop_cons d t rest n p g Hg) as [-> ->].
    destruct (serve _ _ _ _ _ _ _) as [[p' g']|] eqn:Hserve; [|exact I].
    destruct (serve_inv d (happens t) p p' g g' Hinv Hserve)
      as (Hinv' & Hb & _).
    specialize (IH (service_ret t) p' g' Hinv').
    destruct (event_loop _ _ _ _ rest _ _ _) as [| n' q h | q h];
      [exact I | |].
    + destruct IH as (H1 & H2 & H3 & H4).
      split; [exact H1 | split; [exact H2 | split; [exact H3 |]]].
      rewrite existsb_app, orb_true_iff. tauto.
    + destruct IH as (H1 & H4).
      split; [exact H1|]. rewrite existsb_app, orb_true_iff. tauto.
  - destruct (event_loop_stopped d (t :: rest) n p g Hg) as [-> ->].
    cbn [existsb]. split; [exact Hinv|]. split; auto.
    intros [H | H]; [exact H | discriminate].
Qed.

End Controller.
(** X10.  [system_notify_cb] always returns 0 and never writes [bad].
    Unless both the current and the target state are
    [LWS_SYSTATE_OPERATIONAL] it does nothing at all.  When they are, it
    makes exactly one connection attempt, to the MQTT broker on
    localhost: port 1883 without TLS flags when [do_ssl] is 0, port 8883
    with [LCCSCF_USE_SSL | LCCSCF_ALLOW_SELFSIGNED] otherwise; and it
    sets [interrupted] exactly if the attempt fails. *)
Theorem system_notify_cb_connects_when_operational
        (USE_SSL ALLOW_SELFSIGNED OPERATIONAL : Z)
        (current target do_ssl : Z) (connected : bool) (g : globals) :
  let res := system_notify_cb USE_SSL ALLOW_SELFSIGNED OPERATIONAL
               current target do_ssl connected g in
  fst (fst res) = 0 /\
  bad (snd (fst res)) = bad g /\
  (~ (current = OPERATIONAL /\ target = OPERATIONAL) -> res = (0, g, [])) /\
  (current = OPERATIONAL /\ target = OPERATIONAL ->
   exists i : lws_client_connect_info,
     snd res = [i] /\
     connect_client USE_SSL ALLOW_SELFSIGNED do_ssl connected =
       (if connected then 0 else 1, i) /\
     mqtt_cp i = client_connect_param /\
     address i = "localhost"%string /\ protocol i = "mqtt"%string /\
     (do_ssl = 0 -> port i = 1883 /\ ssl_connection i = 0) /\
     (do_ssl <> 0 ->
      port i = 8883 /\ ssl_connection i = Z.lor USE_SSL ALLOW_SELFSIGNED) /\
     snd (fst res) = if connected then g else mk_globals 1 (bad g)).
Proof.
  cbv zeta. unfold system_notify_cb, connect_client.
  destruct (Z.eqb_spec current OPERATIONAL) as [Hc | Hc];
    destruct (Z.eqb_spec target OPERATIONAL) as [Ht | Ht];
    cbn [negb orb fst snd];
    try (repeat split; auto; tauto).
  destruct (Z.eqb_spec do_ssl 0) as [Hd | Hd]; destruct connected;
    cbn [negb fst snd bad Z.eqb];
    (split; [reflexivity | split; [reflexivity | split; [tauto |]]]);
    intros _; eexists; (split; [reflexivity |]);
    cbn [mqtt_cp address protocol port ssl_connection];
    repeat split; auto; intros; congruence.
Qed.

Lemma system_notify_cb_connects_when_operational_witness :
  exists i : lws_client_connect_info,
    snd (system_notify_cb 1 2 12 12 12 1 false globals_init) = [i] /\
    connect_client 1 2 1 false = (if false then 0 else 1, i) /\
    mqtt_cp i = client_connect_param /\
    address i = "localhost"%string /\ protocol i = "mqtt"%string /\
    (1 = 0 -> port i = 1883 /\ ssl_connection i = 0) /\
    (1 <> 0 -> port i = 8883 /\ ssl_connection i = Z.lor 1 2) /\
    snd (fst (system_notify_cb 1 2 12 12 12 1 false globals_init)) =
      if false then globals_init else mk_globals 1 (bad globals_init).
Proof.
  apply (proj2 (proj2 (proj2
           (system_notify_cb_connects_when_operational 1 2 12 12 12 1 false
              globals_init)))).
  split; reflexivity.
Defined.


(** X11.  Whenever [main] returns, for every sequence of callbacks,
    notifications, signals and [lws_service] results and however they
    are spread over the calls of [lws_service], its status is 0 or 1; it
    is 0 exactly if the context was created and the loop dispatched an
    acknowledgement to a session in [STATE_WAIT_ACK1], and then
    [interrupted] is set. *)
Theorem main_exit_status
        (USE_SSL ALLOW_SELFSIGNED OPERATIONAL : Z)
        (s_option context_ok : bool) (ts : list turn)
        (st : Z) (p : pss) (g : globals) :
  main USE_SSL ALLOW_SELFSIGNED OPERATIONAL s_option context_ok ts =
    Exit st p g ->
  (st = 0 \/ st = 1) /\
  (st = 0 <->
   context_ok = true /\
   existsb finishing
     (main_trace USE_SSL ALLOW_SELFSIGNED OPERATIONAL s_option context_ok ts)
     = true) /\
  (st = 0 -> interrupted g = 1).
Proof.
  unfold main, main_trace. destruct context_ok; cbn [negb].
  - pose proof (event_loop_inv USE_SSL ALLOW_SELFSIGNED OPERATIONAL
                  (if s_option then 1 else 0) ts 0 _ _ live_inv_init)
      as Hinv.
    destruct (event_loop _ _ _ _ _ _ _ _) as [| n q h | q h];
      try discriminate.
    intros H. injection H as <- <- <-.
    destruct Hinv as ((Hi & Hb & Hbi & _) & Hbad).
    cbn [bad globals_init] in Hbad.
    split; [tauto | split; [|exact Hbi]].
    rewrite Hbad. split.
    + intros [H | H]; [discriminate | auto].
    + intros [_ H]. now right.
  - intros H. injection H as <- <- <-.
    split; [now right | split; [|discriminate]].
    split; [discriminate | intros [H _]; discriminate].
Qed.

Lemma main_exit_status_witness :
  (0 = 0 \/ 0 = 1) /\
  (0 = 0 <->
   true = true /\
   existsb finishing
     (main_trace 1 2 12 false true
        [mk_turn (Notify 12 12 true :: map Dispatch scenario_B) 0]) = true) /\
  (0 = 0 -> interrupted (mk_globals 1 0) = 1).
Proof.
  apply (main_exit_status 1 2 12 false true
           [mk_turn (Notify 12 12 true :: map Dispatch scenario_B) 0]
           0 (mk_pss STATE_TEST_FINISH 0 0) (mk_globals 1 0)).
  vm_compute. reflexivity.
Defined.

(** After SIGINT [main] can still return 0: the acknowledgement is
    dispatched in the call of [lws_service] during which the signal
    arrived. *)
Example sigint_then_ack_in_one_call :
  main 1 2 12 false true
    [mk_turn (map Dispatch ([writable_ok] ++ publish_burst ++ [ack]
                            ++ publish_burst)) 0;
     mk_turn [Sigint; Dispatch ack] 0] =
  Exit 0 (mk_pss STATE_TEST_FINISH 0 0) (mk_globals 1 0).
Proof. vm_compute. reflexivity. Qed.

(** X12.  A run cut short before the acknowledgement fails.  If [main]
    is still in its loop after some turns, then a call of [lws_service]
    that dispatches no acknowledgement and during which a SIGINT arrives
    or the connection attempt at the operational notification fails, or
    which returns a negative value, makes [main] return 1, whatever
    turns would have followed, unless a callback of that call stops at
    the assertion. *)
Theorem main_cut_short_fails
        (USE_SSL ALLOW_SELFSIGNED OPERATIONAL : Z)
        (s_option : bool) (ts : list turn) (t : turn) (rest : list turn) :
  main USE_SSL ALLOW_SELFSIGNED OPERATIONAL s_option true ts = NotYet ->
  Forall (fun h => match h with
                   | Dispatch c => is_ack c = false
                   | _ => True
                   end) (happens t) ->
  In Sigint (happens t) \/
  In (Notify OPERATIONAL OPERATIONAL false) (happens t) \/
  service_ret t < 0 ->
  main USE_SSL ALLOW_SELFSIGNED OPERATIONAL s_option true (ts ++ t :: rest) =
    Asserted \/
  exists (p : pss) (g : globals),
    main USE_SSL ALLOW_SELFSIGNED OPERATIONAL s_option true (ts ++ t :: rest) =
      Exit 1 p g.
Proof.
  unfold main. cbn [negb].
  set (d := if s_option then 1 else 0).
  pose proof (event_loop_inv USE_SSL ALLOW_SELFSIGNED OPERATIONAL
                d ts 0 _ _ live_inv_init) as Hinv.
  rewrite event_loop_app.
  destruct (event_loop _ _ _ _ ts _ _ _) as [| n p g | q h];
    try discriminate.
  intros _ Hno Hcut. destruct Hinv as (Hinv & Hn & Hi & _).
  assert (Hb : bad g = 1).
  { destruct Hinv as (_ & Hb & Hbi & _).
    destruct Hb as [Hb | Hb]; [apply Hbi in Hb; lia | exact Hb]. }
  assert (Hg : (0 <=? n) && (interrupted g =? 0) = true).
  { apply andb_true_iff. split; [now apply Z.leb_le | now apply Z.eqb_eq]. }
  rewrite (proj1 (event_loop_cons USE_SSL ALLOW_SELFSIGNED OPERATIONAL
                    d t rest n p g Hg)).
  destruct (serve _ _ _ _ _ _ _) as [[p' g']|] eqn:Hserve; [|now left].
  right.
  pose proof (serve_no_ack USE_SSL ALLOW_SELFSIGNED OPERATIONAL
                d (happens t) p p' g g' Hno Hserve) as Hb'.
  assert (Hstop : (0 <=? service_ret t) && (interrupted g' =? 0) = false).
  { apply andb_false_iff.
    destruct Hcut as [Hs | [Hs | Hs]].
    - right. apply Z.eqb_neq.
      rewrite (serve_interrupts USE_SSL ALLOW_SELFSIGNED OPERATIONAL
                 d (happens t) p p' g g' Hinv (or_introl Hs) Hserve).
      discriminate.
    - right. apply Z.eqb_neq.
      rewrite (serve_interrupts USE_SSL ALLOW_SELFSIGNED OPERATIONAL
                 d (happens t) p p' g g' Hinv (or_intror Hs) Hserve).
      discriminate.
    - left. now apply Z.leb_gt. }
  rewrite (proj1 (event_loop_stopped USE_SSL ALLOW_SELFSIGNED OPERATIONAL
                    d rest (service_ret t) p' g' Hstop)).
  exists p', g'. now rewrite Hb', Hb.
Qed.

Lemma main_cut_short_fails_witness :
  main 1 2 12 true true
    ([mk_turn (Notify 12 12 true
                 :: map Dispatch ([writable_ok] ++ publish_burst)) 0]
     ++ mk_turn [Dispatch writable_ok; Sigint; Dispatch writable_ok] 0
     :: [mk_turn [Dispatch ack] 0]) = Asserted \/
  exists (p : pss) (g : globals),
    main 1 2 12 true true
      ([mk_turn (Notify 12 12 true
                   :: map Dispatch ([writable_ok] ++ publish_burst)) 0]
       ++ mk_turn [Dispatch writable_ok; Sigint; Dispatch writable_ok] 0
       :: [mk_turn [Dispatch ack] 0]) = Exit 1 p g.
Proof.
  apply (main_cut_short_fails 1 2 12 true
           [mk_turn (Notify 12 12 true
                       :: map Dispatch ([writable_ok] ++ publish_burst)) 0]
           (mk_turn [Dispatch writable_ok; Sigint; Dispatch writable_ok] 0)
           [mk_turn [Dispatch ack] 0]).
  - vm_compute. reflexivity.
  - repeat constructor.
  - left. cbn. auto.
Defined.
(** ** Bounds on the state *)

(** A property of session and flags that every callback of an
    uninterrupted run preserves holds before and after every step of a
    run, and when the run is over. *)
Lemma run_invariant (J : pss -> globals -> Prop) :
  (forall c p g r p' g' acts,
     session_inv p g -> interrupted g = 0 -> J p g ->
     callback_mqtt c p g = Returned r p' g' acts -> J p' g') ->
  forall (cs : list call) (p : pss) (g : globals),
    session_inv p g -> J p g ->
    Forall (fun s => J (st_pss s) (st_globals s) /\
                     J (st_after s) (st_globals_after s))
           (run (one_per_call cs) p g) /\
    J (fst (run_final (one_per_call cs) p g)) (snd (run_final (one_per_call cs) p g)).
Proof.
  intros Hstep cs. induction cs as [|c rest IH]; intros p g Hinv HJ.
  - split; [constructor | exact HJ].
  - destruct (run_cons c rest p g)
      as [[Hi ->] | [(H0 & Hab & ->) | (H0 & r & p' & g' & acts & Hcall & ->)]];
    destruct (run_final_cons c rest p g)
      as [[Hi' ->] | [(H0' & Hab' & ->) |
                      (H0' & r' & p'' & g'' & acts' & Hcall' & ->)]];
    try contradiction; try congruence.
    + split; [constructor | exact HJ].
    + split; [|exact HJ]. constructor; [|constructor].
      unfold st_after, st_globals_after; cbn. auto.
    + rewrite Hcall in Hcall'. injection Hcall' as <- <- <- <-.
      destruct (callback_mqtt_step c p g r p' g' acts Hinv H0 Hcall)
        as [Hinv' _].
      pose proof (Hstep c p g r p' g' acts Hinv H0 HJ Hcall) as HJ'.
      destruct (IH p' g' Hinv' HJ') as [IH1 IH2].
      split; [|exact IH2]. constructor; [|exact IH1].
      unfold st_after, st_globals_after; cbn. auto.
Qed.

Lemma step_sound_bounds (s : step) :
  step_sound s ->
  -2 <= state (st_pss s) < STATE_TEST_FINISH /\
  -2 <= state (st_after s) <= STATE_TEST_FINISH.
Proof.
  intros Hs. pose proof Hs as (Hinv & H0 & Hout & Hinv' & Hshape).
  destruct Hinv as (_ & _ & Hr & Hst & Hlive & _).
  destruct (Hlive H0) as [Hr3 Hs5].
  destruct Hinv' as (_ & _ & Hr' & Hst' & _).
  destruct Hshape as [Hab | Hsh].
  - destruct (aborted_step s Hs Hab) as (_ & -> & _). lia.
  - apply step_shape_arith in Hsh. lia.
Qed.

(** X13.  As long as [interrupted] is clear the state never overflows
    and leaves the enumeration only downwards and by at most two: under
    every schedule a callback dispatched with [interrupted] clear finds
    [-2 <= state < STATE_TEST_FINISH] and leaves
    [-2 <= state <= STATE_TEST_FINISH], and the state is in that range
    whenever the loop goes on.  When every call of [lws_service]
    dispatches one callback this holds of every step of the run, and if
    moreover all resend requests arrive in [STATE_WAIT_ACK1] the state
    stays within the enumeration, [STATE_SUBSCRIBE <= state]. *)
Theorem state_stays_bounded (cs : list call) (bs : list (list call)) :
  Forall (fun s =>
            -2 <= state (st_pss s) <= STATE_TEST_FINISH /\
            -2 <= state (st_after s) <= STATE_TEST_FINISH)
         (run (one_per_call cs) pss_init globals_init) /\
  -2 <= state (fst (run_final (one_per_call cs) pss_init globals_init))
     <= STATE_TEST_FINISH /\
  (forallb resend_awaited (run (one_per_call cs) pss_init globals_init) = true ->
   Forall (fun s =>
             STATE_SUBSCRIBE <= state (st_pss s) /\
             STATE_SUBSCRIBE <= state (st_after s))
          (run (one_per_call cs) pss_init globals_init)) /\
  Forall (fun s =>
            interrupted (st_globals s) = 0 ->
            -2 <= state (st_pss s) < STATE_TEST_FINISH /\
            -2 <= state (st_after s) <= STATE_TEST_FINISH)
         (run bs pss_init globals_init) /\
  (interrupted (snd (run_final bs pss_init globals_init)) = 0 ->
   -2 <= state (fst (run_final bs pss_init globals_init)) < STATE_TEST_FINISH).
Proof.
  set (J := fun (p : pss) (g : globals) =>
              - Z.min (retries p) 2 <= state p <= STATE_TEST_FINISH /\
              0 <= retries p).
  assert (Hstep : forall c p g r p' g' acts,
             session_inv p g -> interrupted g = 0 -> J p g ->
             callback_mqtt c p g = Returned r p' g' acts -> J p' g').
  { intros c p g r p' g' acts Hinv H0 [HJ Hr] Hcall.
    destruct (callback_mqtt_step c p g r p' g' acts Hinv H0 Hcall)
      as [Hinv' Hshape].
    destruct Hinv' as (_ & _ & Hr' & Hs' & _).
    apply step_shape_arith in Hshape. unfold J. lia. }
  assert (HJ0 : J pss_init globals_init)
    by (unfold J, STATE_TEST_FINISH; cbn; lia).
  destruct (run_invariant J Hstep cs _ _ session_inv_init HJ0) as [H1 H2].
  destruct (run_sched bs _ _ live_inv_init) as [Hsched Hfinal].
  split; [|split; [|split; [|split]]].
  - eapply Forall_impl; [|exact H1]. unfold J. intros s [[? ?] [? ?]]. lia.
  - unfold J in H2. lia.
  - intros Haw.
    pose proof (run_sound cs _ _ session_inv_init) as Hrun.
    clear H1 H2 Hstep HJ0 J.
    revert Haw Hrun.
    generalize (Z.le_refl (state pss_init)).
    change (state pss_init) with STATE_SUBSCRIBE at 1.
    generalize pss_init globals_init.
    induction cs as [|c rest IH]; intros p g Hp Haw Hrun; [constructor|].
    destruct (run_cons c rest p g)
      as [[Hi Ha] | [(H0 & Hab & Ha) | (H0 & r & p' & g' & acts & Hcall & Ha)]];
      rewrite Ha in *.
    + constructor.
    + constructor; [|constructor].
      unfold st_after; cbn. auto.
    + cbn [forallb] in Haw. apply andb_true_iff in Haw as [Haw1 Haw2].
      inversion Hrun as [|s tr Hs Htr]; subst.
      destruct (step_sound_monotone _ Hs) as (Hf & Hb & _).
      unfold resend_awaited, st_after in *. cbn [st_call st_pss st_out] in *.
      assert (Hp' : STATE_SUBSCRIBE <= state p').
      { destruct (is_resend c); cbn [negb orb] in Haw1.
        - apply Z.eqb_eq in Haw1. specialize (Hb eq_refl).
          unfold STATE_SUBSCRIBE, STATE_WAIT_ACK1 in *. lia.
        - specialize (Hf eq_refl). lia. }
      constructor; [cbn; auto | now apply IH].
  - eapply Forall_impl; [|exact Hsched].
    intros s (_ & _ & _ & Hlive) H0. exact (step_sound_bounds s (Hlive H0)).
  - intros H0. destruct Hfinal as (_ & _ & _ & _ & _ & Hlive).
    destruct (Hlive H0). lia.
Qed.

Lemma state_stays_bounded_witness :
  forallb resend_awaited (run (one_per_call scenario_C) pss_init globals_init) = true /\
  Forall (fun s =>
            STATE_SUBSCRIBE <= state (st_pss s) /\
            STATE_SUBSCRIBE <= state (st_after s))
         (run (one_per_call scenario_C) pss_init globals_init).
Proof.
  assert (H : forallb resend_awaited (run (one_per_call scenario_C) pss_init globals_init) = true)
    by (vm_compute; reflexivity).
  split; [exact H|].
  exact (proj1 (proj2 (proj2 (state_stays_bounded scenario_C []))) H).
Defined.

(** The lower bound is reached; callbacks dispatched after
    [interrupted] was set, in the same call of [lws_service], take the
    state out of the range. *)
Example state_below_the_enum :
  run_final (one_per_call [resend; resend; writable_ok])
            pss_init globals_init =
    (mk_pss (-2) 0 2, globals_init) /\
  run_final [[resend; resend; resend; resend]] pss_init globals_init =
    (mk_pss (-3) 0 4, mk_globals 1 1) /\
  run_final (one_per_call before_third_resend ++ [[ack; ack]])
            pss_init globals_init =
    (mk_pss 6 0 2, mk_globals 1 0).
Proof. repeat split; vm_compute; reflexivity. Qed.

(** X14.  A publish leg can be picked up at any cursor inside the
    payload: WRITEABLE callbacks from cursor [k] send contiguous chunks
    starting at [k] whose sizes sum to [L - k], exactly one of them
    final, the last, ending at [L]; the leg ends within [L - k + 1]
    callbacks in the next state with the cursor back at 0. *)
Theorem publish_leg_resumes (L C s cursor r : Z) (g : globals) :
  0 <= L < size_modulus -> 1 <= C < size_modulus ->
  s = STATE_PUBLISH_QOS0 \/ s = STATE_PUBLISH_QOS1 ->
  0 <= cursor < L ->
  exists (acts : list action) (front : list chunk) (last : chunk),
    publish_leg L C (S (Z.to_nat (L - cursor))) (mk_pss s cursor r) g =
      Some (acts, mk_pss (s + 1) 0 r) /\
    publish_chunks acts = front ++ [last] /\
    contiguous cursor (publish_chunks acts) /\
    total_len (publish_chunks acts) = L - cursor /\
    final_count (publish_chunks acts) = 1%nat /\
    chunk_final last = true /\ chunk_end last = L.
Proof.
  intros HL HC Hs Hc.
  destruct (publish_leg_from L C HL HC (Z.to_nat (L - cursor)) s cursor r g Hs)
    as (front & last & Hleg & Hfront & Hfin & Hend & Hlen & Hcont & Htot);
    try lia.
  exists (map (publish_action L s) (front ++ [last])), front, last.
  rewrite publish_chunks_actions.
  repeat split; try assumption.
  apply final_count_last; [|assumption].
  eapply Forall_impl; [|exact Hfront]. now intros c [Hf _].
Qed.

Lemma publish_leg_resumes_witness :
  exists (acts : list action) (front : list chunk) (last : chunk),
    publish_leg TEST_STRING_LEN MAX_CHUNK
      (S (Z.to_nat (TEST_STRING_LEN - 600)))
      (mk_pss STATE_PUBLISH_QOS1 600 1) globals_init =
      Some (acts, mk_pss (STATE_PUBLISH_QOS1 + 1) 0 1) /\
    publish_chunks acts = front ++ [last] /\
    contiguous 600 (publish_chunks acts) /\
    total_len (publish_chunks acts) = TEST_STRING_LEN - 600 /\
    final_count (publish_chunks acts) = 1%nat /\
    chunk_final last = true /\ chunk_end last = TEST_STRING_LEN.
Proof.
  apply (publish_leg_resumes TEST_STRING_LEN MAX_CHUNK STATE_PUBLISH_QOS1
           600 1 globals_init).
  - unfold TEST_STRING_LEN, size_modulus; lia.
  - unfold MAX_CHUNK, size_modulus; lia.
  - right; reflexivity.
  - unfold TEST_STRING_LEN; lia.
Defined.


(** ** The loop of [main] and the runs above *)

Section Bridge.

Variables USE_SSL ALLOW_SELFSIGNED OPERATIONAL : Z.

Lemma serve_dispatch (d : Z) (b : list call) :
  forall (p : pss) (g : globals),
    serve USE_SSL ALLOW_SELFSIGNED OPERATIONAL d (map Dispatch b) p g =
      (let '(ok, pg) := dispatch_final b p g in
       if ok then Some pg else None) /\
    serve_trace USE_SSL ALLOW_SELFSIGNED OPERATIONAL d (map Dispatch b) p g =
      dispatch b p g.
Proof.
  induction b as [|c rest IH]; intros p g; [split; reflexivity|].
  cbn [map serve serve_trace dispatch dispatch_final].
  destruct (callback_mqtt c p g) as [|r p' g' acts]; [split; reflexivity|].
  destruct (IH p' g') as [H1 H2]. split; [exact H1 | now rewrite H2].
Qed.

(** When the calls of [lws_service] dispatch protocol callbacks only and
    return 0, the loop of [main] takes the steps of [run] and, unless a
    callback stops at the assertion, stands where [run_final] stands. *)
Lemma event_loop_is_run (d : Z) (bs : list (list call)) :
  forall (p : pss) (g : globals),
    loop_trace USE_SSL ALLOW_SELFSIGNED OPERATIONAL d
      (map (fun b => mk_turn (map Dispatch b) 0) bs) 0 p g = run bs p g /\
    (event_loop USE_SSL ALLOW_SELFSIGNED OPERATIONAL d
       (map (fun b => mk_turn (map Dispatch b) 0) bs) 0 p g = Crashed \/
     event_loop USE_SSL ALLOW_SELFSIGNED OPERATIONAL d
       (map (fun b => mk_turn (map Dispatch b) 0) bs) 0 p g =
       (if interrupted (snd (run_final bs p g)) =? 0
        then Running 0 (fst (run_final bs p g)) (snd (run_final bs p g))
        else Left (fst (run_final bs p g)) (snd (run_final bs p g)))).
Proof.
  induction bs as [|b rest IH]; intros p g;
    cbn [map event_loop loop_trace run run_final happens service_ret];
    change (0 <=? 0) with true; cbn [andb].
  - destruct (interrupted g =? 0) eqn:Hi; cbn [fst snd]; rewrite ?Hi;
      split; auto.
  - destruct (interrupted g =? 0) eqn:Hi.
    + destruct (serve_dispatch d b p g) as [-> ->].
      destruct (dispatch_final b p g) as [ok [p' g']]. destruct ok.
      * destruct (IH p' g') as [H1 H2]. split; [now rewrite H1 | exact H2].
      * split; [reflexivity | now left].
    + cbn [fst snd]. rewrite Hi. split; auto.
Qed.

End Bridge.
